(** * go6502: the SD/MMC card on the parallel port (package [sd])

    A shallow embedding of [sd/sd.go]: the pin map, the SPI shift state
    and the methods [NewSdCard], [Read], [Write], [handleMisoByte],
    [handleMosiByte], [queueMiso] and [logExchange], followed by the
    properties of the bit-level protocol.

    Conventions.
    - A Go [byte]/[uint8] is a [Z] in [0, 256); every operation that can
      leave that range in Go is followed by [wrap8].
    - A Go [uint] pin number is a [Z]; only its use as a shift count
      matters, and a count outside [0, 8) gives the mask [0].
    - A method with receiver [*SdCard] is a computation in the monad [M]:
      it reads and updates the card, appends to the log what the Go code
      prints with [fmt.Printf], and may panic ([None]) where Go indexes or
      slices out of range. *)

From Stdlib Require Import ZArith List Bool Lia.
From Stdlib Require String.
From ExtLib Require Import Structures.Monad.
Import ListNotations.
Import MonadNotation.
Local Open Scope Z_scope.
Local Open Scope monad_scope.

(** * Part I. The embedding of [sd/sd.go] *)

(** ** Bytes *)

Definition byte := Z.

Definition wrap8 (x : Z) : byte := x mod 256.

(** [x << n] at type [uint8]. *)
Definition shl8 (x n : Z) : byte := wrap8 (Z.shiftl x n).

Definition is_byte (x : Z) : Prop := 0 <= x < 256.

(** ** Data model *)

Record spiState := mkSpiState {
  clock      : bool;       (* the most recent clock state *)
  index      : Z;          (* uint8: bit index of the current byte *)
  misoBuffer : byte;       (* byte being sent one bit at a time *)
  misoQueue  : list byte;  (* data waiting to be sent *)
  readByte   : byte;       (* the pins as read by the VIA controller *)
  mosiBuffer : byte        (* the byte being built from bits *)
}.

Record PinMap := mkPinMap {
  Sclk : Z;
  Mosi : Z;
  Miso : Z;
  Ss   : Z
}.

(** The embedded fields [spiState] and [PinMap] of the Go struct are the
    projections [spi] and [pins]: a Rocq projection cannot carry the name
    of its type. *)
Record SdCard := mkSdCard {
  data     : list byte;
  size     : Z;
  spi      : spiState;
  pins     : PinMap;
  maskSclk : byte;
  maskMosi : byte;
  maskMiso : byte;
  maskSs   : byte
}.

(** What the card prints on standard output. *)
Inductive Event :=
| GotCmd40                       (* "SD: Got 0x40; queueing response bytes." *)
| Exchange (mosi miso : byte).   (* "SD MOSI $.. <-> $.. MISO" *)

(** Field updates of the embedded [spiState]. *)
Definition with_clock (c : bool) (s : spiState) : spiState :=
  mkSpiState c (index s) (misoBuffer s) (misoQueue s) (readByte s) (mosiBuffer s).
Definition with_index (i : Z) (s : spiState) : spiState :=
  mkSpiState (clock s) i (misoBuffer s) (misoQueue s) (readByte s) (mosiBuffer s).
Definition with_misoBuffer (b : byte) (s : spiState) : spiState :=
  mkSpiState (clock s) (index s) b (misoQueue s) (readByte s) (mosiBuffer s).
Definition with_misoQueue (q : list byte) (s : spiState) : spiState :=
  mkSpiState (clock s) (index s) (misoBuffer s) q (readByte s) (mosiBuffer s).
Definition with_readByte (b : byte) (s : spiState) : spiState :=
  mkSpiState (clock s) (index s) (misoBuffer s) (misoQueue s) b (mosiBuffer s).
Definition with_mosiBuffer (b : byte) (s : spiState) : spiState :=
  mkSpiState (clock s) (index s) (misoBuffer s) (misoQueue s) (readByte s) b.

Definition with_spi (s : spiState) (sd : SdCard) : SdCard :=
  mkSdCard (data sd) (size sd) s (pins sd)
           (maskSclk sd) (maskMosi sd) (maskMiso sd) (maskSs sd).
Definition with_image (d : list byte) (n : Z) (sd : SdCard) : SdCard :=
  mkSdCard d n (spi sd) (pins sd)
           (maskSclk sd) (maskMosi sd) (maskMiso sd) (maskSs sd).

(** ** The method monad: card state, printed log, panic *)

Definition M (A : Type) : Type := SdCard -> option (A * SdCard * list Event).

Definition retM {A} (a : A) : M A := fun sd => Some (a, sd, []).

Definition bindM {A B} (c : M A) (k : A -> M B) : M B :=
  fun sd =>
    match c sd with
    | None => None
    | Some (a, sd1, l1) =>
        match k a sd1 with
        | None => None
        | Some (b, sd2, l2) => Some (b, sd2, l1 ++ l2)
        end
    end.

#[export] Instance Monad_M : Monad M := {| ret := @retM; bind := @bindM |}.

Definition getSd : M SdCard := fun sd => Some (sd, sd, []).
Definition updSpi (f : spiState -> spiState) : M unit :=
  fun sd => Some (tt, with_spi (f (spi sd)) sd, []).
Definition printf (e : Event) : M unit := fun sd => Some (tt, sd, [e]).
Definition panic {A} : M A := fun _ => None.
Definition when (b : bool) (c : M unit) : M unit := if b then c else ret tt.

(** [q[i]]: panics when [i] is not below [len(q)]. *)
Definition at_index (q : list byte) (i : nat) : M byte :=
  match nth_error q i with
  | Some b => ret b
  | None => panic
  end.

(** [q[lo:hi]]; the model panics unless [lo <= hi <= len(q)] (Go allows
    [hi] up to the capacity, the card never asks for that). *)
Definition slice (q : list byte) (lo hi : nat) : M (list byte) :=
  if (lo <=? hi)%nat && (hi <=? length q)%nat
  then ret (firstn (hi - lo) (skipn lo q))
  else panic.

(** ** Pin map *)

Definition PinMask (p : PinMap) : byte :=
  Z.lor (Z.lor (Z.lor (shl8 1 (Sclk p)) (shl8 1 (Mosi p))) (shl8 1 (Miso p)))
        (shl8 1 (Ss p)).

(** ** The card *)

Definition queueMiso (bytes : list byte) : M unit :=
  updSpi (fun s => with_misoQueue (misoQueue s ++ bytes) s).

Definition handleMisoByte : M byte :=
  sd <- getSd ;;
  (if (0 <? length (misoQueue (spi sd)))%nat then
     b <- at_index (misoQueue (spi sd)) 0 ;;
     updSpi (with_misoBuffer b) ;;
     q <- slice (misoQueue (spi sd)) 1 (length (misoQueue (spi sd))) ;;
     updSpi (with_misoQueue q)
   else
     updSpi (with_misoBuffer 0)) ;;     (* default to low for empty buffer *)
  sd <- getSd ;;
  ret (misoBuffer (spi sd)).

Definition handleMosiByte : M byte :=
  sd <- getSd ;;
  let data := mosiBuffer (spi sd) in
  updSpi (with_mosiBuffer 0) ;;
  (if data =? 64 then
     printf GotCmd40 ;;
     queueMiso [170; 171; 172; 173]
   else ret tt) ;;
  ret data.

Definition logExchange (mosi miso : byte) : M unit :=
  printf (Exchange mosi miso).

Definition Read : M byte :=
  sd <- getSd ;;
  ret (readByte (spi sd)).

(** [Write] takes an updated parallel port state. *)
Definition Write (data : byte) : M unit :=
  sd <- getSd ;;
  let cs := 0 <? Z.land data (maskSs sd) in
  if cs then ret tt                     (* high = inactive *)
  else
    let mosi := 0 <? Z.land data (maskMosi sd) in
    let clk := 0 <? Z.land data (maskSclk sd) in
    let rising := negb (clock (spi sd)) && clk in
    let falling := clock (spi sd) && negb clk in
    updSpi (with_clock clk) ;;
    when rising
      (sd <- getSd ;;
       if 0 <? Z.land (misoBuffer (spi sd)) (shl8 1 (index (spi sd)))
       then updSpi (with_readByte (Z.lor 0 (maskMiso sd)))
       else updSpi (with_readByte 0)) ;;
    when falling
      (when mosi
         (updSpi (fun s =>
            with_mosiBuffer (Z.lor (mosiBuffer s) (shl8 1 (index s))) s)) ;;
       sd <- getSd ;;
       (* after the eighth bit *)
       if index (spi sd) =? 0 then
         mosiByte <- handleMosiByte ;;
         misoByte <- handleMisoByte ;;
         logExchange mosiByte misoByte ;;
         updSpi (with_index 7)
       else
         updSpi (fun s => with_index (wrap8 (index s - 1)) s)).

(** [LoadFile]: [contents] is what [ioutil.ReadFile] gave, [None] when it
    failed; the result is [true] when an error is returned. *)
Definition LoadFile (contents : option (list byte)) : M bool :=
  match contents with
  | None => ret true
  | Some d => (fun sd => Some (false, with_image d (Z.of_nat (length d)) sd, []))
  end.

Definition Shutdown : M unit := ret tt.

(** The zero value [&SdCard{PinMap: pm}]. *)
Definition zeroCard (pm : PinMap) : SdCard :=
  mkSdCard [] 0 (mkSpiState false 0 0 [] 0 0) pm 0 0 0 0.

Definition setMasks (pm : PinMap) : M unit :=
  fun sd => Some (tt, mkSdCard (data sd) (size sd) (spi sd) (pins sd)
                        (shl8 1 (Sclk pm)) (shl8 1 (Mosi pm))
                        (shl8 1 (Miso pm)) (shl8 1 (Ss pm)), []).

(** [NewSdCard]: the card, or [None] if construction panics.  The Go
    function also returns [err], which is never assigned and so is [nil]. *)
Definition NewSdCard (pm : PinMap) : option SdCard :=
  match
    (setMasks pm ;;
     updSpi (with_index 7) ;;
     updSpi (with_misoQueue []) ;;
     (* two busy bytes, then ready. *)
     queueMiso [0; 0; 0; 255] ;;
     (* initialize MISO buffer. *)
     handleMisoByte) (zeroCard pm)
  with
  | Some (_, sd, _) => Some sd
  | None => None
  end.

(** * Part II. The vocabulary of the properties *)

(** ** Decoding a port byte the way [Write] does *)

Definition selHigh (sd : SdCard) (d : byte) : bool := 0 <? Z.land d (maskSs sd).
Definition clkLevel (sd : SdCard) (d : byte) : bool := 0 <? Z.land d (maskSclk sd).
Definition mosiLevel (sd : SdCard) (d : byte) : bool := 0 <? Z.land d (maskMosi sd).

(** The port value [Write] latches for an output bit. *)
Definition misoLevel (sd : SdCard) (b : bool) : byte :=
  if b then maskMiso sd else 0.

(** The test [sd.misoBuffer&(1<<sd.index) > 0]. *)
Definition misoBit (s : spiState) : bool :=
  0 <? Z.land (misoBuffer s) (shl8 1 (index s)).

(** The reply queued for a completed input byte. *)
Definition response (v : byte) : list byte :=
  if v =? 64 then [170; 171; 172; 173] else [].

Definition responseLog (v : byte) : list Event :=
  if v =? 64 then [GotCmd40] else [].

(** The input buffer after a falling edge that presents level [b]. *)
Definition shiftBit (s : spiState) (b : bool) : byte :=
  if b then Z.lor (mosiBuffer s) (shl8 1 (index s)) else mosiBuffer s.

(** ** The host side: clocking bits through the port

    One bit of an SPI exchange is two port writes, clock high then clock
    low; the host samples the port with [Read] in between. *)

Definition clockPair (p : byte * byte) : M byte :=
  Write (fst p) ;;
  r <- Read ;;
  Write (snd p) ;;
  ret r.

Fixpoint clockPairs (ps : list (byte * byte)) : M (list byte) :=
  match ps with
  | [] => ret []
  | p :: ps' =>
      r <- clockPair p ;;
      rs <- clockPairs ps' ;;
      ret (r :: rs)
  end.

(** The pair [p] keeps the card selected, raises then lowers the clock,
    and presents data-out level [b] on the falling edge. *)
Definition drivesBit (sd : SdCard) (p : byte * byte) (b : bool) : Prop :=
  selHigh sd (fst p) = false /\ clkLevel sd (fst p) = true /\
  selHigh sd (snd p) = false /\ clkLevel sd (snd p) = false /\
  mosiLevel sd (snd p) = b.

Definition drives (sd : SdCard) (ps : list (byte * byte)) (bs : list bool) : Prop :=
  Forall2 (drivesBit sd) ps bs.

(** Bits 7 down to 0 of a byte. *)
Definition bitsMSB (v : byte) : list bool :=
  map (Z.testbit v) [7; 6; 5; 4; 3; 2; 1; 0].

(** What [n] falling edges starting at bit [i] leave in the input buffer. *)
Fixpoint shiftIn (m : byte) (i : Z) (bs : list bool) : byte :=
  match bs with
  | [] => m
  | b :: bs' => shiftIn (if b then Z.lor m (shl8 1 i) else m) (i - 1) bs'
  end.

(** What [n] rising edges starting at bit [i] put on the port. *)
Fixpoint sent (lvl : bool -> byte) (b : byte) (i : Z) (n : nat) : list byte :=
  match n with
  | O => []
  | S n' => lvl (0 <? Z.land b (shl8 1 i)) :: sent lvl b (i - 1) n'
  end.

(** ** Whole bytes, as the host sees them *)

(** The host reads the data-in pin from a sampled port value. *)
Definition lineHigh (sd : SdCard) (r : byte) : bool := 0 <? Z.land r (maskMiso sd).

(** Most significant bit first. *)
Definition byteOfBits (bs : list bool) : byte :=
  fold_left (fun acc (b : bool) => 2 * acc + (if b then 1 else 0)) bs 0.

Definition recvByte (sd : SdCard) (rs : list byte) : byte :=
  byteOfBits (map (lineHigh sd) rs).

(** One byte out, one byte in. *)
Definition exchange (ps : list (byte * byte)) : M byte :=
  rs <- clockPairs ps ;;
  sd <- getSd ;;
  ret (recvByte sd rs).

Fixpoint exchanges (pss : list (list (byte * byte))) : M (list byte) :=
  match pss with
  | [] => ret []
  | ps :: pss' =>
      b <- exchange ps ;;
      bs <- exchanges pss' ;;
      ret (b :: bs)
  end.

(** The port writes [ps] send the byte [v]. *)
Definition sendsByte (sd : SdCard) (ps : list (byte * byte)) (v : byte) : Prop :=
  is_byte v /\ drives sd ps (bitsMSB v).

(** The bytes a card with output buffer [b] and queue [q] shifts out while
    it receives [vs]. *)
Fixpoint cardReplies (b : byte) (q : list byte) (vs : list byte) : list byte :=
  match vs with
  | [] => []
  | v :: vs' =>
      let q' := q ++ response v in
      wrap8 b :: cardReplies (hd 0 q') (tl q') vs'
  end.

(** A byte boundary: clock low, a whole byte still to go, nothing shifted in. *)
Definition atBoundary (sd : SdCard) : Prop :=
  clock (spi sd) = false /\ index (spi sd) = 7 /\ mosiBuffer (spi sd) = 0.

(** ** A bit-banging host

    Port bytes as a host wired to the pin map [pm] writes them: chip select
    held low, the clock and data-out pins driven, every other pin low. *)

Definition portByte (pm : PinMap) (clk mosi : bool) : byte :=
  Z.lor (if clk then shl8 1 (Sclk pm) else 0) (if mosi then shl8 1 (Mosi pm) else 0).

Definition bitPair (pm : PinMap) (b : bool) : byte * byte :=
  (portByte pm true b, portByte pm false b).

Definition bytePairs (pm : PinMap) (v : byte) : list (byte * byte) :=
  map (bitPair pm) (bitsMSB v).

(** The port writes of a host that clocks the bytes [vs] through. *)
Definition hostWrites (pm : PinMap) (vs : list byte) : list byte :=
  flat_map (fun v => flat_map (fun p => [fst p; snd p]) (bytePairs pm v)) vs.

(** The pin map the card needs: every pin on the port, and the three
    pins the card reads pairwise distinct. *)
Definition validPins (pm : PinMap) : Prop :=
  0 <= Sclk pm < 8 /\ 0 <= Mosi pm < 8 /\ 0 <= Miso pm < 8 /\ 0 <= Ss pm < 8 /\
  Sclk pm <> Mosi pm /\ Sclk pm <> Ss pm /\ Mosi pm <> Ss pm.

(** ** Well-formed and reachable cards *)

(** The four masks are the ones [NewSdCard] derives from the pin map. *)
Definition wfMasks (sd : SdCard) : Prop :=
  maskSclk sd = shl8 1 (Sclk (pins sd)) /\
  maskMosi sd = shl8 1 (Mosi (pins sd)) /\
  maskMiso sd = shl8 1 (Miso (pins sd)) /\
  maskSs sd = shl8 1 (Ss (pins sd)).

(** Cards obtained from [NewSdCard pm] by calls of the exported methods. *)
Inductive reachable (pm : PinMap) : SdCard -> Prop :=
| reach_new sd :
    NewSdCard pm = Some sd -> reachable pm sd
| reach_Write sd d sd' log :
    reachable pm sd -> Write d sd = Some (tt, sd', log) -> reachable pm sd'
| reach_Read sd r sd' log :
    reachable pm sd -> Read sd = Some (r, sd', log) -> reachable pm sd'
| reach_LoadFile sd c e sd' log :
    reachable pm sd -> LoadFile c sd = Some (e, sd', log) -> reachable pm sd'
| reach_Shutdown sd sd' log :
    reachable pm sd -> Shutdown sd = Some (tt, sd', log) -> reachable pm sd'.

(** Sequences of calls. *)
Fixpoint writes (ds : list byte) : M unit :=
  match ds with
  | [] => ret tt
  | d :: ds' => Write d ;; writes ds'
  end.

Fixpoint readN (n : nat) : M (list byte) :=
  match n with
  | O => ret []
  | S n' => r <- Read ;; rs <- readN n' ;; ret (r :: rs)
  end.

Definition cardInv (pm : PinMap) (sd : SdCard) : Prop :=
  pins sd = pm /\ wfMasks sd /\ 0 <= index (spi sd) <= 7 /\
  (readByte (spi sd) = 0 \/ readByte (spi sd) = maskMiso sd).

(** ** Cards and a pin map for concrete runs *)

(** A pin map for concrete runs and the card it gives at power-on. *)
Definition pm0 : PinMap := mkPinMap 0 1 2 3.

Definition card0 : SdCard :=
  mkSdCard [] 0 (mkSpiState false 7 0 [0; 0; 255] 0 0) pm0 1 2 4 8.

(** Power-on, three bytes exchanged, then one more rising edge: the
    ready token [0xFF] is in the output buffer and its top bit on the line. *)
Definition card1 : SdCard :=
  mkSdCard [] 0 (mkSpiState true 7 255 [] 4 0) pm0 1 2 4 8.

(** Power-on and three bytes exchanged: the ready token is in the output
    buffer and the queue is empty. *)
Definition card2 : SdCard :=
  mkSdCard [] 0 (mkSpiState false 7 255 [] 0 0) pm0 1 2 4 8.

(** ** Addressable memory ([memory.go])

    ROM and RAM with 16-bit addresses and 8-bit data.  A [uint16] is a [Z]
    in [0, 65536), wrapped by [wrap16] where Go's subtraction wraps.  A
    method that indexes its backing store returns [None] where Go panics.
    A method with a pointer receiver that assigns returns the value it
    leaves behind. *)

Module Mem.

Definition uint16 := Z.

Definition wrap16 (x : Z) : uint16 := x mod 65536.

Definition is_uint16 (x : Z) : Prop := 0 <= x < 65536.

(** The interface [Memory]. *)
Class Memory (T : Type) := {
  Shutdown : T -> T;
  Read : T -> uint16 -> option byte;
  Write : T -> uint16 -> byte -> option T;
  Size : T -> Z
}.

(** *** [Rom] *)

Record Rom := mkRom {
  name : String.string;
  size : Z;              (* bytes *)
  data : list byte
}.

Definition Rom_Shutdown (r : Rom) : Rom := r.

(** [rom.data[a]] *)
Definition Rom_Read (rom : Rom) (a : uint16) : option byte :=
  nth_error (data rom) (Z.to_nat a).

(** [RomFromFile]: [file] is what [ioutil.ReadFile] gave, [None] when it
    failed; the result is [None] when the Go function returns [(nil, err)]. *)
Definition RomFromFile (path : String.string) (file : option (list byte)) : option Rom :=
  match file with
  | None => None
  | Some d => Some (mkRom path (Z.of_nat (length d)) d)
  end.

Definition Rom_Size (r : Rom) : Z := size r.

(** [Write] is not supported: it panics with "... is read-only". *)
Definition Rom_Write (r : Rom) (_ : uint16) (_ : byte) : option Rom := None.

#[global] Instance Memory_Rom : Memory Rom :=
  {| Shutdown := Rom_Shutdown; Read := Rom_Read; Write := Rom_Write; Size := Rom_Size |}.

(** *** [Ram]: the array type [[0x8000]byte] *)

Definition ramLen : nat := Z.to_nat 32768.

Definition Ram := list byte.

(** A value of the array type has exactly [0x8000] cells. *)
Definition ramOk (mem : Ram) : Prop := length mem = ramLen.

(** The zero value of the array. *)
Definition zeroRam : Ram := repeat 0 ramLen.

Definition Ram_Shutdown (r : Ram) : Ram := r.

(** [mem[a]] *)
Definition Ram_Read (mem : Ram) (a : uint16) : option byte :=
  nth_error mem (Z.to_nat a).

(** [mem[a] = value] *)
Definition Ram_Write (mem : Ram) (a : uint16) (value : byte) : option Ram :=
  if (Z.to_nat a <? length mem)%nat
  then Some (firstn (Z.to_nat a) mem ++ value :: skipn (S (Z.to_nat a)) mem)
  else None.

Definition Ram_Size (_ : Ram) : Z := 32768.

#[global] Instance Memory_Ram : Memory Ram :=
  {| Shutdown := Ram_Shutdown; Read := Ram_Read; Write := Ram_Write; Size := Ram_Size |}.

(** *** [OffsetMemory]: a [Memory] mounted at a base address

    The struct embeds the interface: [Inner] is the embedded [Memory], and
    [Shutdown] and [Size] are the promoted methods. *)

Record OffsetMemory (T : Type) := mkOffsetMemory {
  Offset : uint16;
  Inner : T
}.

Arguments mkOffsetMemory {T} _ _.
Arguments Offset {T} _.
Arguments Inner {T} _.

Definition OffsetMemory_Read {T} `{Memory T} (om : OffsetMemory T) (a : uint16)
  : option byte :=
  Read (Inner om) (wrap16 (a - Offset om)).

Definition OffsetMemory_Write {T} `{Memory T} (om : OffsetMemory T) (a : uint16)
  (value : byte) : option (OffsetMemory T) :=
  match Write (Inner om) (wrap16 (a - Offset om)) value with
  | Some m => Some (mkOffsetMemory (Offset om) m)
  | None => None
  end.

Definition OffsetMemory_Shutdown {T} `{Memory T} (om : OffsetMemory T)
  : OffsetMemory T :=
  mkOffsetMemory (Offset om) (Shutdown (Inner om)).

Definition OffsetMemory_Size {T} `{Memory T} (om : OffsetMemory T) : Z :=
  Size (Inner om).

#[global] Instance Memory_OffsetMemory {T} `{Memory T} : Memory (OffsetMemory T) :=
  {| Shutdown := OffsetMemory_Shutdown; Read := OffsetMemory_Read;
     Write := OffsetMemory_Write; Size := OffsetMemory_Size |}.

End Mem.

(** ** Byte ranges of the SPI state *)

(** Every byte-typed field holds a byte, and the input buffer has no bit
    at or below the current bit index. *)
Definition bytesInv (sd : SdCard) : Prop :=
  is_byte (misoBuffer (spi sd)) /\ Forall is_byte (misoQueue (spi sd)) /\
  is_byte (readByte (spi sd)) /\ is_byte (mosiBuffer (spi sd)) /\
  forall k, 0 <= k <= index (spi sd) -> Z.testbit (mosiBuffer (spi sd)) k = false.

(** A pin map whose clock pin is not on the port, and its card. *)
Definition pm8 : PinMap := mkPinMap 8 1 2 3.

Definition card8 : SdCard :=
  mkSdCard [] 0 (mkSpiState false 7 0 [0; 0; 255] 0 0) pm8 0 2 4 8.

(** ** Tactics *)

Ltac run_M :=
  unfold Write, Read, handleMosiByte, handleMisoByte, logExchange, queueMiso,
    when, at_index, slice, printf, updSpi, getSd, panic;
  cbn [bind ret Monad_M]; unfold bindM, retM; cbn.

Ltac invert_Forall2 :=
  repeat match goal with
         | H : Forall2 _ _ (_ :: _) |- _ => inversion H; clear H; subst
         | H : Forall2 _ _ [] |- _ => inversion H; clear H; subst
         end.

(** Closed facts about the bit-banging host on [pm0]. *)
Ltac host_facts :=
  vm_compute;
  repeat first [ apply Forall2_cons | apply Forall2_nil | split
               | reflexivity | discriminate ].

(** * Part III. Lemmas *)

(** ** Bit-level facts about bytes *)

Lemma shl8_in_range i : 0 <= i < 8 -> shl8 1 i = 2 ^ i.
Proof.
  intros Hi. unfold shl8, wrap8. rewrite Z.shiftl_1_l.
  apply Z.mod_small. split; [apply Z.pow_nonneg; lia|].
  change 256 with (2 ^ 8). apply Z.pow_lt_mono_r; lia.
Qed.

Lemma shl8_out_of_range i : i < 0 \/ 8 <= i -> shl8 1 i = 0.
Proof.
  intros [Hi|Hi]; unfold shl8, wrap8.
  - rewrite Z.shiftl_1_l, Z.pow_neg_r by lia. reflexivity.
  - rewrite Z.shiftl_1_l. replace i with (8 + (i - 8)) by lia.
    rewrite Z.pow_add_r by lia. change (2 ^ 8) with 256.
    rewrite Z.mul_comm. apply Z.mod_mul. lia.
Qed.

Lemma land_pow2 x i :
  0 <= i -> Z.land x (2 ^ i) = if Z.testbit x i then 2 ^ i else 0.
Proof.
  intros Hi. apply Z.bits_inj'. intros n Hn.
  rewrite Z.land_spec, Z.pow2_bits_eqb by lia.
  destruct (Z.eqb_spec i n) as [->|Hne].
  - destruct (Z.testbit x n); cbn.
    + rewrite Z.pow2_bits_eqb, Z.eqb_refl by lia. reflexivity.
    + rewrite Z.bits_0. reflexivity.
  - rewrite andb_false_r. destruct (Z.testbit x i).
    + rewrite Z.pow2_bits_eqb by lia. symmetry. apply Z.eqb_neq. exact Hne.
    + rewrite Z.bits_0. reflexivity.
Qed.

(** The test [x&(1<<i) > 0] reads bit [i] when [i] is a bit of a byte. *)
Lemma land_shl8_pos x i :
  0 <= i < 8 -> (0 <? Z.land x (shl8 1 i)) = Z.testbit x i.
Proof.
  intros Hi. rewrite shl8_in_range, land_pow2 by lia.
  destruct (Z.testbit x i); [|reflexivity].
  apply Z.ltb_lt. apply Z.pow_pos_nonneg; lia.
Qed.

(** A property of bytes decided by running it on all 256 of them. *)
Lemma byte_cases (P : Z -> bool) :
  forallb P (map Z.of_nat (seq 0 256)) = true ->
  forall v, is_byte v -> P v = true.
Proof.
  intros H v Hv. rewrite forallb_forall in H. apply H.
  apply in_map_iff. exists (Z.to_nat v). split; [unfold is_byte in Hv; lia|].
  apply in_seq. unfold is_byte in Hv. lia.
Qed.

(** On a byte, the mask test of [Write] reads the pin's bit: a pin outside
    the port has mask [0] and no bit in the byte. *)
Lemma mask_test d p :
  is_byte d -> (0 <? Z.land d (shl8 1 p)) = Z.testbit d p.
Proof.
  intros Hd. unfold is_byte in Hd.
  destruct (Z.lt_ge_cases p 0) as [Hneg|Hpos].
  - rewrite shl8_out_of_range, Z.land_0_r, Z.testbit_neg_r by lia. reflexivity.
  - destruct (Z.lt_ge_cases p 8) as [Hin|Hout].
    + apply land_shl8_pos. lia.
    + rewrite shl8_out_of_range, Z.land_0_r by lia.
      rewrite <- (Z.mod_small d (2 ^ 8)) by (change (2 ^ 8) with 256; lia).
      rewrite Z.mod_pow2_bits_high by lia. reflexivity.
Qed.

(** Two port values with the same bit at pin [p] pass the mask test alike. *)
Lemma mask_test_agree d1 d2 p :
  Z.testbit d1 p = Z.testbit d2 p ->
  (0 <? Z.land d1 (shl8 1 p)) = (0 <? Z.land d2 (shl8 1 p)).
Proof.
  intros H.
  destruct (Z.lt_ge_cases p 0) as [Hneg|Hpos];
    [rewrite shl8_out_of_range, !Z.land_0_r by lia; reflexivity|].
  destruct (Z.lt_ge_cases p 8) as [Hin|Hout];
    [|rewrite shl8_out_of_range, !Z.land_0_r by lia; reflexivity].
  rewrite !land_shl8_pos by lia. exact H.
Qed.

(** The test of the rising edge reads bit [index] of the output buffer. *)
Lemma misoBit_testbit s :
  0 <= index s <= 7 -> misoBit s = Z.testbit (misoBuffer s) (index s).
Proof. intros Hi. apply land_shl8_pos. lia. Qed.

(** ** The handlers and [Write], case by case *)

Lemma firstn_all_tail (q : list byte) : firstn (length q - 0) q = q.
Proof. rewrite Nat.sub_0_r. apply firstn_all. Qed.

Lemma handleMisoByte_run sd :
  handleMisoByte sd =
  Some (hd 0 (misoQueue (spi sd)),
        with_spi (with_misoQueue (tl (misoQueue (spi sd)))
                    (with_misoBuffer (hd 0 (misoQueue (spi sd))) (spi sd))) sd,
        []).
Proof.
  destruct sd as [dat sz [c i mb q rb ib] pm m1 m2 m3 m4].
  destruct q as [|x q]; run_M; [reflexivity|].
  rewrite Nat.leb_refl, firstn_all_tail. reflexivity.
Qed.


Lemma Write_deselected sd d :
  selHigh sd d = true -> Write d sd = Some (tt, sd, []).
Proof.
  unfold selHigh. intros H. run_M. rewrite H. reflexivity.
Qed.

Lemma Write_rising sd d :
  selHigh sd d = false -> clock (spi sd) = false -> clkLevel sd d = true ->
  Write d sd =
  Some (tt, with_spi (with_readByte (misoLevel sd (misoBit (spi sd)))
                        (with_clock true (spi sd))) sd, []).
Proof.
  unfold selHigh, clkLevel, misoLevel, misoBit. intros Hs Hc Hk.
  run_M. rewrite Hs, Hc, Hk. cbn.
  destruct (0 <? Z.land (misoBuffer (spi sd)) (shl8 1 (index (spi sd)))); cbn;
    reflexivity.
Qed.

(** No clock transition: only [sd.clock = clock] runs, which stores the
    level it already holds. *)
Lemma Write_steady sd d :
  selHigh sd d = false -> clkLevel sd d = clock (spi sd) ->
  Write d sd = Some (tt, sd, []).
Proof.
  unfold selHigh, clkLevel. intros Hs Hk.
  destruct sd as [dat sz [c i mb q rb ib] pm m1 m2 m3 m4]. cbn in *.
  run_M. rewrite Hs, Hk. destruct c; reflexivity.
Qed.

Lemma Write_falling_mid sd d :
  selHigh sd d = false -> clock (spi sd) = true -> clkLevel sd d = false ->
  index (spi sd) <> 0 ->
  Write d sd =
  Some (tt, with_spi (with_index (wrap8 (index (spi sd) - 1))
                        (with_mosiBuffer (shiftBit (spi sd) (mosiLevel sd d))
                           (with_clock false (spi sd)))) sd, []).
Proof.
  unfold selHigh, clkLevel, mosiLevel, shiftBit. intros Hs Hc Hk Hi.
  apply Z.eqb_neq in Hi.
  destruct sd as [dat sz [c i mb q rb ib] pm m1 m2 m3 m4]. cbn in *.
  run_M. rewrite Hs, Hc, Hk. cbn.
  destruct (0 <? Z.land d m2); cbn; rewrite Hi; reflexivity.
Qed.

Lemma Write_falling_last sd d :
  selHigh sd d = false -> clock (spi sd) = true -> clkLevel sd d = false ->
  index (spi sd) = 0 ->
  let v := shiftBit (spi sd) (mosiLevel sd d) in
  let q := misoQueue (spi sd) ++ response v in
  Write d sd =
  Some (tt, with_spi (mkSpiState false 7 (hd 0 q) (tl q)
                        (readByte (spi sd)) 0) sd,
        responseLog v ++ [Exchange v (hd 0 q)]).
Proof.
  unfold selHigh, clkLevel, mosiLevel, shiftBit. intros Hs Hc Hk Hi.
  destruct sd as [dat sz [c i mb q rb ib] pm m1 m2 m3 m4]. cbn in *. subst i c.
  cbn zeta. unfold response, responseLog.
  run_M. rewrite Hs, Hk. cbn.
  destruct (0 <? Z.land d m2); cbn;
    match goal with |- context [?v =? 64] => destruct (v =? 64) end;
    destruct q as [|x q]; cbn;
    rewrite ?Nat.leb_refl, ?firstn_all_tail, ?app_nil_r; try reflexivity.
Qed.

Lemma Write_cases sd d :
  (selHigh sd d = true /\ Write d sd = Some (tt, sd, []))
  \/ (selHigh sd d = false /\ clkLevel sd d = clock (spi sd) /\
      Write d sd = Some (tt, sd, []))
  \/ (selHigh sd d = false /\ clock (spi sd) = false /\ clkLevel sd d = true /\
      Write d sd =
      Some (tt, with_spi (with_readByte (misoLevel sd (misoBit (spi sd)))
                            (with_clock true (spi sd))) sd, []))
  \/ (selHigh sd d = false /\ clock (spi sd) = true /\ clkLevel sd d = false /\
      index (spi sd) <> 0 /\
      Write d sd =
      Some (tt, with_spi (with_index (wrap8 (index (spi sd) - 1))
                            (with_mosiBuffer (shiftBit (spi sd) (mosiLevel sd d))
                               (with_clock false (spi sd)))) sd, []))
  \/ (selHigh sd d = false /\ clock (spi sd) = true /\ clkLevel sd d = false /\
      index (spi sd) = 0 /\
      Write d sd =
      Some (tt, with_spi (mkSpiState false 7
                            (hd 0 (misoQueue (spi sd) ++
                                   response (shiftBit (spi sd) (mosiLevel sd d))))
                            (tl (misoQueue (spi sd) ++
                                 response (shiftBit (spi sd) (mosiLevel sd d))))
                            (readByte (spi sd)) 0) sd,
            responseLog (shiftBit (spi sd) (mosiLevel sd d)) ++
            [Exchange (shiftBit (spi sd) (mosiLevel sd d))
               (hd 0 (misoQueue (spi sd) ++
                      response (shiftBit (spi sd) (mosiLevel sd d))))])).
Proof.
  destruct (selHigh sd d) eqn:Hs.
  { left. split; [reflexivity|]. apply Write_deselected. exact Hs. }
  right.
  destruct (clock (spi sd)) eqn:Hc, (clkLevel sd d) eqn:Hk.
  - left. repeat split. apply Write_steady; congruence.
  - right. right. destruct (Z.eq_dec (index (spi sd)) 0) as [Hi|Hi].
    + right. repeat split; try assumption.
      apply (Write_falling_last sd d Hs Hc Hk Hi).
    + left. repeat split; try assumption.
      apply Write_falling_mid; assumption.
  - right. left. repeat split. apply Write_rising; assumption.
  - left. repeat split. apply Write_steady; congruence.
Qed.

Lemma Write_total sd d : exists sd' log, Write d sd = Some (tt, sd', log).
Proof.
  destruct (Write_cases sd d)
    as [[_ H]|[(_ & _ & H)|[(_ & _ & _ & H)|[(_ & _ & _ & _ & H)|(_ & _ & _ & _ & H)]]]];
    rewrite H; eexists _, _; reflexivity.
Qed.

Lemma Read_run sd : Read sd = Some (readByte (spi sd), sd, []).
Proof. reflexivity. Qed.

Lemma readN_run n sd : readN n sd = Some (repeat (readByte (spi sd)) n, sd, []).
Proof.
  induction n as [|n IH]; [reflexivity|].
  cbn [readN bind ret Monad_M]. unfold bindM.
  rewrite Read_run, IH. reflexivity.
Qed.

Lemma writes_deselected sd ds :
  Forall (fun d => selHigh sd d = true) ds -> writes ds sd = Some (tt, sd, []).
Proof.
  induction 1 as [|d ds Hd _ IH]; [reflexivity|].
  cbn [writes bind ret Monad_M]. unfold bindM.
  rewrite (Write_deselected sd d Hd), IH. reflexivity.
Qed.

(** ** Clocking bits *)

Lemma clockPair_mid sd p b :
  drivesBit sd p b -> clock (spi sd) = false -> index (spi sd) <> 0 ->
  let l := misoLevel sd (misoBit (spi sd)) in
  clockPair p sd =
  Some (l, with_spi (mkSpiState false (wrap8 (index (spi sd) - 1))
                       (misoBuffer (spi sd)) (misoQueue (spi sd)) l
                       (shiftBit (spi sd) b)) sd, []).
Proof.
  intros (Hs1 & Hk1 & Hs2 & Hk2 & Hm) Hc Hi l.
  unfold clockPair. cbn [bind ret Monad_M]. unfold bindM.
  rewrite (Write_rising _ _ Hs1 Hc Hk1).
  unfold Read, getSd. cbn [bind ret Monad_M]. unfold bindM, retM.
  rewrite Write_falling_mid; try assumption; try reflexivity.
  subst l b. destruct sd as [dat sz [c i mb q rb ib] pm m1 m2 m3 m4].
  reflexivity.
Qed.

Lemma clockPair_last sd p b :
  drivesBit sd p b -> clock (spi sd) = false -> index (spi sd) = 0 ->
  let l := misoLevel sd (misoBit (spi sd)) in
  let v := shiftBit (spi sd) b in
  let q := misoQueue (spi sd) ++ response v in
  clockPair p sd =
  Some (l, with_spi (mkSpiState false 7 (hd 0 q) (tl q) l 0) sd,
        responseLog v ++ [Exchange v (hd 0 q)]).
Proof.
  intros (Hs1 & Hk1 & Hs2 & Hk2 & Hm) Hc Hi l v q.
  unfold clockPair. cbn [bind ret Monad_M]. unfold bindM.
  rewrite (Write_rising _ _ Hs1 Hc Hk1).
  unfold Read, getSd. cbn [bind ret Monad_M]. unfold bindM, retM.
  rewrite Write_falling_last; try assumption; try reflexivity.
  subst l v q b. destruct sd as [dat sz [c i mb q rb ib] pm m1 m2 m3 m4].
  cbn. rewrite app_nil_r. reflexivity.
Qed.

Lemma last_cons_default (x : byte) l d : last (x :: l) d = last l x.
Proof.
  revert x d. induction l as [|y l IH]; intros x d; [reflexivity|].
  change (last (x :: y :: l) d) with (last (y :: l) d).
  rewrite (IH y d), (IH y x). reflexivity.
Qed.

(** Clocking fewer bits than remain in the current byte. *)
Lemma clockPairs_mid ps : forall bs sd,
  drives sd ps bs -> clock (spi sd) = false ->
  Z.of_nat (length ps) <= index (spi sd) < 256 ->
  let rs := sent (misoLevel sd) (misoBuffer (spi sd)) (index (spi sd)) (length ps) in
  clockPairs ps sd =
  Some (rs,
        with_spi (mkSpiState false (index (spi sd) - Z.of_nat (length ps))
                    (misoBuffer (spi sd)) (misoQueue (spi sd))
                    (last rs (readByte (spi sd)))
                    (shiftIn (mosiBuffer (spi sd)) (index (spi sd)) bs)) sd,
        []).
Proof.
  induction ps as [|p ps IH]; intros bs sd Hd Hc Hi; inversion Hd; subst.
  - destruct sd as [dat sz [c i mb q rb ib] pm m1 m2 m3 m4]. cbn in *. subst c.
    rewrite Z.sub_0_r. reflexivity.
  - cbn [length] in Hi. rewrite Nat2Z.inj_succ in Hi.
    cbn [clockPairs bind ret Monad_M]. unfold bindM.
    rewrite (clockPair_mid sd p y) by (assumption || lia).
    rewrite (IH l'); [ | assumption | reflexivity | cbn; unfold wrap8; rewrite Z.mod_small; lia ].
    destruct sd as [dat sz [c i mb q rb ib] pm m1 m2 m3 m4].
    cbn [spi index misoBuffer misoQueue readByte mosiBuffer with_spi length
         sent shiftIn data size pins maskSclk maskMosi maskMiso maskSs] in *.
    unfold retM, wrap8. rewrite Z.mod_small by lia.
    rewrite last_cons_default, Nat2Z.inj_succ.
    unfold shiftBit, misoLevel, misoBit. cbn.
    replace (i - Z.succ (Z.of_nat (length ps))) with (i - 1 - Z.of_nat (length ps)) by lia.
    reflexivity.
Qed.

Lemma clockPairs_app a : forall b sd,
  clockPairs (a ++ b) sd =
  match clockPairs a sd with
  | None => None
  | Some (ra, sd1, la) =>
      match clockPairs b sd1 with
      | None => None
      | Some (rb, sd2, lb) => Some (ra ++ rb, sd2, la ++ lb)
      end
  end.
Proof.
  induction a as [|p a IH]; intros b sd.
  - cbn. destruct (clockPairs b sd) as [[[rb sd2] lb]|]; reflexivity.
  - cbn [app clockPairs bind ret Monad_M]. unfold bindM.
    destruct (clockPair p sd) as [[[r sd1] l1]|]; [|reflexivity].
    rewrite IH.
    destruct (clockPairs a sd1) as [[[ra sd2] la]|]; [|reflexivity].
    unfold retM.
    destruct (clockPairs b sd2) as [[[rb sd3] lb]|]; [|reflexivity].
    rewrite !app_nil_r, app_assoc. reflexivity.
Qed.

Lemma shiftIn_app a : forall m i b,
  shiftIn m i (a ++ b) = shiftIn (shiftIn m i a) (i - Z.of_nat (length a)) b.
Proof.
  induction a as [|x a IH]; intros m i b.
  - cbn. rewrite Z.sub_0_r. reflexivity.
  - cbn [app shiftIn length]. rewrite IH, Nat2Z.inj_succ.
    f_equal. lia.
Qed.

Lemma sent_app lvl b n : forall i k,
  sent lvl b i (n + k) = sent lvl b i n ++ sent lvl b (i - Z.of_nat n) k.
Proof.
  induction n as [|n IH]; intros i k.
  - cbn. rewrite Z.sub_0_r. reflexivity.
  - cbn [Nat.add sent app]. rewrite IH, Nat2Z.inj_succ.
    do 3 f_equal. lia.
Qed.

Lemma sent_bitsMSB lvl b : sent lvl b 7 8 = map lvl (bitsMSB b).
Proof.
  cbn [sent bitsMSB map Z.sub Z.add Z.opp Z.pos_sub Pos.pred_double].
  rewrite !land_shl8_pos by lia. reflexivity.
Qed.

Lemma shiftIn_bitsMSB v : is_byte v -> shiftIn 0 7 (bitsMSB v) = v.
Proof.
  intros Hv. apply Z.eqb_eq.
  apply (byte_cases (fun v => shiftIn 0 7 (bitsMSB v) =? v)); [|exact Hv].
  vm_compute. reflexivity.
Qed.

Lemma length_bitsMSB v : length (bitsMSB v) = 8%nat.
Proof. reflexivity. Qed.

(** ** A full byte exchange *)

(** Eight clock pairs from a byte boundary: the port shows the bits of
    the output buffer, the input byte is handed to the handlers, the next
    output byte is dequeued, and the exchange is logged. *)
Lemma exchange_run sd ps bs :
  drives sd ps bs -> length bs = 8%nat ->
  clock (spi sd) = false -> index (spi sd) = 7 ->
  let v := shiftIn (mosiBuffer (spi sd)) 7 bs in
  let q := misoQueue (spi sd) ++ response v in
  clockPairs ps sd =
  Some (map (misoLevel sd) (bitsMSB (misoBuffer (spi sd))),
        with_spi (mkSpiState false 7 (hd 0 q) (tl q)
                    (misoLevel sd (Z.testbit (misoBuffer (spi sd)) 0)) 0) sd,
        responseLog v ++ [Exchange v (hd 0 q)]).
Proof.
  intros Hd Hl Hc Hi v q.
  do 9 (destruct bs as [|? bs]; try discriminate Hl). clear Hl.
  unfold drives in Hd. invert_Forall2.
  match goal with
  | |- clockPairs [?p7; ?p6; ?p5; ?p4; ?p3; ?p2; ?p1; ?p0] _ = _ =>
      change [p7; p6; p5; p4; p3; p2; p1; p0]
        with ([p7; p6; p5; p4; p3; p2; p1] ++ [p0])
  end.
  rewrite clockPairs_app.
  rewrite (clockPairs_mid _ [b; b0; b1; b2; b3; b4; b5]);
    [ | repeat (apply Forall2_cons; [assumption|]); apply Forall2_nil
      | assumption | rewrite Hi; cbn; lia ].
  cbn [clockPairs bind ret Monad_M]. unfold bindM.
  rewrite (clockPair_last _ _ b6); [ | assumption | reflexivity | cbn; lia ].
  subst v q. rewrite <- sent_bitsMSB.
  change 8%nat with (7 + 1)%nat. rewrite sent_app.
  change [b; b0; b1; b2; b3; b4; b5; b6]
    with ([b; b0; b1; b2; b3; b4; b5] ++ [b6]).
  rewrite shiftIn_app.
  destruct sd as [dat sz [c i mb qq rb ib] pm m1 m2 m3 m4].
  cbn [spi clock index misoBuffer misoQueue readByte mosiBuffer with_spi length
       data size pins maskSclk maskMosi maskMiso maskSs] in *.
  subst i c. clear.
  set (front := shiftIn ib 7 [b; b0; b1; b2; b3; b4; b5]).
  set (lvls := sent (misoLevel _) mb 7 7).
  unfold retM, shiftBit, misoBit.
  cbn [spi clock index misoBuffer misoQueue readByte mosiBuffer with_spi length
       data size pins maskSclk maskMosi maskMiso maskSs].
  change (7 - Z.of_nat 7) with 0.
  cbn [shiftIn sent]. rewrite land_shl8_pos by lia. rewrite !app_nil_r.
  reflexivity.
Qed.

Lemma bitsMSB_wrap8 v : bitsMSB (wrap8 v) = bitsMSB v.
Proof.
  unfold bitsMSB, wrap8. change 256 with (2 ^ 8). cbn [map].
  rewrite !Z.mod_pow2_bits_low by lia. reflexivity.
Qed.

Lemma byteOfBits_bitsMSB v : byteOfBits (bitsMSB v) = wrap8 v.
Proof.
  rewrite <- bitsMSB_wrap8.
  assert (Hb : is_byte (wrap8 v)) by (apply Z.mod_pos_bound; lia).
  revert Hb. generalize (wrap8 v). intros w Hw. apply Z.eqb_eq.
  apply (byte_cases (fun w => byteOfBits (bitsMSB w) =? w)); [|exact Hw].
  vm_compute. reflexivity.
Qed.

Lemma lineHigh_misoLevel sd b :
  0 < maskMiso sd -> lineHigh sd (misoLevel sd b) = b.
Proof.
  intros Hm. unfold lineHigh, misoLevel. destruct b.
  - rewrite Z.land_diag. apply Z.ltb_lt. exact Hm.
  - reflexivity.
Qed.

Lemma recvByte_levels sd b :
  0 < maskMiso sd -> recvByte sd (map (misoLevel sd) (bitsMSB b)) = wrap8 b.
Proof.
  intros Hm. unfold recvByte. rewrite map_map.
  rewrite (map_ext _ (fun x => x)) by (intros; apply lineHigh_misoLevel; exact Hm).
  rewrite map_id. apply byteOfBits_bitsMSB.
Qed.

Lemma exchange_byte sd ps v :
  sendsByte sd ps v -> atBoundary sd -> 0 < maskMiso sd ->
  let q := misoQueue (spi sd) ++ response v in
  exchange ps sd =
  Some (wrap8 (misoBuffer (spi sd)),
        with_spi (mkSpiState false 7 (hd 0 q) (tl q)
                    (misoLevel sd (Z.testbit (misoBuffer (spi sd)) 0)) 0) sd,
        responseLog v ++ [Exchange v (hd 0 q)]).
Proof.
  intros [Hv Hd] (Hc & Hi & Hm) Hmiso q.
  unfold exchange. cbn [bind ret Monad_M]. unfold bindM.
  rewrite (exchange_run sd ps (bitsMSB v) Hd (length_bitsMSB v) Hc Hi).
  rewrite Hm, (shiftIn_bitsMSB v Hv).
  unfold getSd, retM. subst q.
  change (maskMiso sd) with
    (maskMiso (with_spi (mkSpiState false 7
       (hd 0 (misoQueue (spi sd) ++ response v))
       (tl (misoQueue (spi sd) ++ response v))
       (misoLevel sd (Z.testbit (misoBuffer (spi sd)) 0)) 0) sd)) in Hmiso.
  change (misoLevel sd) with
    (misoLevel (with_spi (mkSpiState false 7
       (hd 0 (misoQueue (spi sd) ++ response v))
       (tl (misoQueue (spi sd) ++ response v))
       (misoLevel sd (Z.testbit (misoBuffer (spi sd)) 0)) 0) sd)) at 1.
  rewrite (recvByte_levels _ _ Hmiso), !app_nil_r. reflexivity.
Qed.

(** The bit-level machine refines the byte-level queue. *)
Lemma exchanges_run pss : forall vs sd,
  Forall2 (sendsByte sd) pss vs -> atBoundary sd -> 0 < maskMiso sd ->
  exists sd' log,
    exchanges pss sd =
    Some (cardReplies (misoBuffer (spi sd)) (misoQueue (spi sd)) vs, sd', log).
Proof.
  induction pss as [|ps pss IH]; intros vs sd Hs Hb Hm; inversion Hs; subst.
  - exists sd, []. reflexivity.
  - cbn [exchanges bind ret Monad_M]. unfold bindM.
    rewrite (exchange_byte sd ps y) by assumption.
    match goal with
    | |- context [exchanges pss ?sd1] =>
        destruct (IH l' sd1) as (sd' & log & Hrun);
          [ assumption | repeat split | exact Hm | ]
    end.
    cbn [spi misoBuffer misoQueue with_spi] in Hrun. rewrite Hrun.
    unfold retM. eexists _, _. reflexivity.
Qed.

Lemma cardReplies_four b0 b1 b2 b3 q vs :
  length vs = 4%nat ->
  cardReplies b0 (b1 :: b2 :: b3 :: q) vs = [wrap8 b0; wrap8 b1; wrap8 b2; wrap8 b3].
Proof.
  intros Hl. do 5 (destruct vs as [|? vs]; try discriminate Hl).
  reflexivity.
Qed.

(** ** Construction and reachable cards *)

Lemma NewSdCard_run pm :
  NewSdCard pm =
  Some (mkSdCard [] 0 (mkSpiState false 7 0 [0; 0; 255] 0 0) pm
          (shl8 1 (Sclk pm)) (shl8 1 (Mosi pm))
          (shl8 1 (Miso pm)) (shl8 1 (Ss pm))).
Proof. reflexivity. Qed.

Lemma NewSdCard_pm0 : NewSdCard pm0 = Some card0.
Proof. reflexivity. Qed.

Lemma Write_cardInv pm sd d sd' log :
  cardInv pm sd -> Write d sd = Some (tt, sd', log) -> cardInv pm sd'.
Proof.
  intros (Hp & Hw & Hi & Hr) HW.
  destruct (Write_cases sd d)
    as [[_ H]|[(_ & _ & H)|[(_ & _ & _ & H)|[(_ & _ & _ & Hn & H)|(_ & _ & _ & _ & H)]]]];
    rewrite H in HW; injection HW as <- _; clear H;
    destruct sd as [dat sz [c i mb q rb ib] pm' m1 m2 m3 m4];
    unfold cardInv, wfMasks in *; cbn in *.
  - tauto.
  - tauto.
  - repeat split; try tauto; try lia.
    unfold misoLevel, misoBit; cbn. destruct (0 <? Z.land mb (shl8 1 i)); tauto.
  - repeat split; try tauto; unfold wrap8; (rewrite Z.mod_small by lia); lia.
  - repeat split; try tauto; lia.
Qed.

Lemma reachable_cardInv pm sd : reachable pm sd -> cardInv pm sd.
Proof.
  induction 1 as [sd H|sd d sd' log _ IH H|sd r sd' log _ IH H
                  |sd c e sd' log _ IH H|sd sd' log _ IH H].
  - rewrite NewSdCard_run in H. injection H as <-.
    unfold cardInv, wfMasks; cbn. repeat split; try lia; try (left; reflexivity).
  - exact (Write_cardInv pm sd d sd' log IH H).
  - injection H as _ <- _. exact IH.
  - destruct c as [dta|]; injection H as _ <- _; [|exact IH].
    destruct sd; exact IH.
  - injection H as <- _. exact IH.
Qed.

Lemma reachable_writes pm ds : forall sd sd' log,
  reachable pm sd -> writes ds sd = Some (tt, sd', log) -> reachable pm sd'.
Proof.
  induction ds as [|d ds IH]; intros sd sd' log Hr Hw.
  - injection Hw as <- _. exact Hr.
  - cbn [writes bind ret Monad_M] in Hw. unfold bindM in Hw.
    destruct (Write_total sd d) as (sd1 & l1 & H1). rewrite H1 in Hw.
    destruct (writes ds sd1) as [[[[] sd2] l2]|] eqn:H2; [|discriminate].
    injection Hw as <- _.
    exact (IH sd1 sd2 l2 (reach_Write pm sd d sd1 l1 Hr H1) H2).
Qed.

Lemma reachable_card1 : reachable pm0 card1.
Proof.
  apply (reachable_writes pm0 (hostWrites pm0 [255; 255; 255] ++ [1]) card0 card1
           [Exchange 255 0; Exchange 255 0; Exchange 255 255]).
  - apply reach_new. reflexivity.
  - vm_compute. reflexivity.
Qed.

Lemma reachable_card2 : reachable pm0 card2.
Proof.
  apply (reachable_writes pm0 (hostWrites pm0 [255; 255; 255]) card0 card2
           [Exchange 255 0; Exchange 255 0; Exchange 255 255]).
  - apply reach_new. reflexivity.
  - vm_compute. reflexivity.
Qed.

(** ** The bit-banging host on a valid pin map *)

Lemma testbit_level (c : bool) k p :
  0 <= k < 8 -> 0 <= p ->
  Z.testbit (if c then shl8 1 k else 0) p = c && (k =? p).
Proof.
  intros Hk Hp. destruct c; [|apply Z.bits_0].
  rewrite shl8_in_range by lia. apply Z.pow2_bits_eqb. lia.
Qed.

Lemma portByte_test pm c m p :
  0 <= Sclk pm < 8 -> 0 <= Mosi pm < 8 -> 0 <= p < 8 ->
  (0 <? Z.land (portByte pm c m) (shl8 1 p)) =
  (c && (Sclk pm =? p)) || (m && (Mosi pm =? p)).
Proof.
  intros Hc Hm Hp. rewrite land_shl8_pos by lia. unfold portByte.
  rewrite Z.lor_spec, !testbit_level by lia. reflexivity.
Qed.

(** On a valid pin map the bit-banging host drives the card as intended. *)
Lemma host_drivesBit sd b :
  wfMasks sd -> validPins (pins sd) -> drivesBit sd (bitPair (pins sd) b) b.
Proof.
  intros (Hclk & Hmosi & _ & Hss) (H1 & H2 & _ & H4 & Hcm & Hcs & Hms).
  unfold drivesBit, selHigh, clkLevel, mosiLevel, bitPair, fst, snd.
  rewrite Hclk, Hmosi, Hss, !portByte_test by lia.
  rewrite Z.eqb_refl, Z.eqb_refl.
  rewrite (proj2 (Z.eqb_neq (Sclk (pins sd)) (Ss (pins sd)))) by exact Hcs.
  rewrite (proj2 (Z.eqb_neq (Mosi (pins sd)) (Ss (pins sd)))) by exact Hms.
  rewrite (proj2 (Z.eqb_neq (Mosi (pins sd)) (Sclk (pins sd)))) by congruence.
  rewrite (proj2 (Z.eqb_neq (Sclk (pins sd)) (Mosi (pins sd)))) by exact Hcm.
  destruct b; repeat split.
Qed.

Lemma host_sendsByte sd v :
  wfMasks sd -> validPins (pins sd) -> is_byte v ->
  sendsByte sd (bytePairs (pins sd) v) v.
Proof.
  intros Hw Hp Hv. split; [exact Hv|].
  unfold drives, bytePairs. induction (bitsMSB v) as [|b bs IH]; cbn [map].
  - apply Forall2_nil.
  - apply Forall2_cons; [apply host_drivesBit; assumption|exact IH].
Qed.

(** * Part IV. The claims *)

(** C1 (power-on sequence), as the code has it.  [NewSdCard] queues four
    bytes, [0x00 0x00 0x00 0xFF], and dequeues the first into the output
    buffer: the card starts with output buffer [0x00] and queue
    [0x00 0x00 0xFF].  With the data-in pin on the port, the first four
    bytes a host clocks out are therefore [0x00 0x00 0x00 0xFF], whatever
    it sends meanwhile: three busy bytes come before the ready token, not
    the two that the comment in [NewSdCard] announces. *)
Theorem power_on_sequence pm :
  0 <= Miso pm < 8 ->
  exists sd,
    NewSdCard pm = Some sd /\
    index (spi sd) = 7 /\
    misoBuffer (spi sd) = 0 /\
    misoQueue (spi sd) = [0; 0; 255] /\
    forall pss vs,
      Forall2 (sendsByte sd) pss vs -> length vs = 4%nat ->
      exists sd' log, exchanges pss sd = Some ([0; 0; 0; 255], sd', log).
Proof.
  intros Hm. rewrite NewSdCard_run. eexists. split; [reflexivity|].
  repeat (split; [reflexivity|]).
  intros pss vs Hs Hl.
  match goal with |- context [exchanges pss ?sd] =>
    destruct (exchanges_run pss vs sd Hs) as (sd' & log & Hrun)
  end.
  - repeat split.
  - cbn [maskMiso]. rewrite shl8_in_range by lia. apply Z.pow_pos_nonneg; lia.
  - exists sd', log. rewrite Hrun. do 2 f_equal.
    exact (f_equal (fun r => (r, sd')) (cardReplies_four 0 0 0 255 [] vs Hl)).
Qed.

Lemma power_on_sequence_witness :
  0 <= Miso pm0 < 8 /\
  NewSdCard pm0 = Some card0 /\
  Forall2 (sendsByte card0) (map (bytePairs pm0) [255; 255; 255; 255])
          [255; 255; 255; 255] /\
  exists sd' log,
    exchanges (map (bytePairs pm0) [255; 255; 255; 255]) card0 =
    Some ([0; 0; 0; 255], sd', log).
Proof.
  assert (Hm : 0 <= Miso pm0 < 8) by (cbn; lia).
  assert (Hs : Forall2 (sendsByte card0) (map (bytePairs pm0) [255; 255; 255; 255])
                 [255; 255; 255; 255]) by host_facts.
  split; [exact Hm|]. split; [reflexivity|]. split; [exact Hs|].
  destruct (power_on_sequence pm0 Hm) as (sd & Hnew & _ & _ & _ & Hrun).
  rewrite NewSdCard_pm0 in Hnew. injection Hnew as <-.
  exact (Hrun (map (bytePairs pm0) [255; 255; 255; 255]) [255; 255; 255; 255]
              Hs eq_refl).
Defined.

(** C2 (idle invariant).  On a card whose masks come from its pin map, any
    sequence of [Write] calls whose port bytes all have the chip-select
    bit set leaves the whole card as it was (every field of the SPI state,
    the queue included), prints nothing, and [Read] afterwards returns
    what it returned before. *)
Theorem idle_invariant sd ds :
  wfMasks sd ->
  Forall (fun d => is_byte d /\ Z.testbit d (Ss (pins sd)) = true) ds ->
  writes ds sd = Some (tt, sd, []) /\
  (writes ds ;; Read) sd = Read sd.
Proof.
  intros (_ & _ & _ & Hss) Hds.
  assert (Hrun : writes ds sd = Some (tt, sd, [])).
  { apply writes_deselected. eapply Forall_impl; [|exact Hds].
    intros d [Hd Hbit]. unfold selHigh. rewrite Hss, mask_test by exact Hd.
    exact Hbit. }
  split; [exact Hrun|].
  cbn [bind ret Monad_M]. unfold bindM. rewrite Hrun, Read_run. reflexivity.
Qed.

Lemma idle_invariant_witness :
  wfMasks card0 /\
  Forall (fun d => is_byte d /\ Z.testbit d (Ss (pins card0)) = true) [8; 9; 11; 10; 8] /\
  writes [8; 9; 11; 10; 8] card0 = Some (tt, card0, []) /\
  (writes [8; 9; 11; 10; 8] ;; Read) card0 = Read card0.
Proof.
  assert (Hw : wfMasks card0) by (repeat split).
  assert (Hd : Forall (fun d => is_byte d /\ Z.testbit d (Ss (pins card0)) = true)
                 [8; 9; 11; 10; 8])
    by (repeat constructor; unfold is_byte; lia).
  split; [exact Hw|]. split; [exact Hd|].
  exact (idle_invariant card0 [8; 9; 11; 10; 8] Hw Hd).
Defined.

(** C3 (bit framing).  From a byte boundary (clock low, bit index 7, empty
    input buffer), eight clock pairs written while selected, whose k-th
    falling edge presents bit 7-k of the byte [v] on data-out, complete an
    exchange whose input byte is exactly [v]: the handlers are run on [v]
    (its reply is queued, the exchange is logged with [v] as the byte
    received), the input buffer is cleared and the bit index is back at 7. *)
Theorem bit_framing sd ps v :
  is_byte v -> drives sd ps (bitsMSB v) ->
  clock (spi sd) = false -> index (spi sd) = 7 -> mosiBuffer (spi sd) = 0 ->
  exists rs sd' next,
    clockPairs ps sd = Some (rs, sd', responseLog v ++ [Exchange v next]) /\
    misoBuffer (spi sd') = hd 0 (misoQueue (spi sd) ++ response v) /\
    misoQueue (spi sd') = tl (misoQueue (spi sd) ++ response v) /\
    mosiBuffer (spi sd') = 0 /\ index (spi sd') = 7.
Proof.
  intros Hv Hd Hc Hi Hm.
  rewrite (exchange_run sd ps (bitsMSB v) Hd (length_bitsMSB v) Hc Hi).
  rewrite Hm, (shiftIn_bitsMSB v Hv).
  eexists _, _, _. repeat split.
Qed.

Lemma bit_framing_witness :
  is_byte 64 /\ drives card0 (bytePairs pm0 64) (bitsMSB 64) /\
  clock (spi card0) = false /\ index (spi card0) = 7 /\ mosiBuffer (spi card0) = 0 /\
  exists rs sd' next,
    clockPairs (bytePairs pm0 64) card0 =
    Some (rs, sd', responseLog 64 ++ [Exchange 64 next]) /\
    misoBuffer (spi sd') = hd 0 (misoQueue (spi card0) ++ response 64) /\
    misoQueue (spi sd') = tl (misoQueue (spi card0) ++ response 64) /\
    mosiBuffer (spi sd') = 0 /\ index (spi sd') = 7.
Proof.
  assert (Hv : is_byte 64) by (unfold is_byte; lia).
  assert (Hd : drives card0 (bytePairs pm0 64) (bitsMSB 64)) by host_facts.
  split; [exact Hv|]. split; [exact Hd|]. repeat (split; [reflexivity|]).
  exact (bit_framing card0 (bytePairs pm0 64) 64 Hv Hd eq_refl eq_refl eq_refl).
Defined.

(** C4 (output shift law).  With byte [b] in the output buffer, clock low
    and bit index 7, the port values sampled with [Read] after each of
    eight successive rising edges are the levels of bits 7, 6, ..., 0 of
    [b] (the data-in mask for a set bit, [0x00] for a clear one), whatever
    data-out levels [bs] the falling edges in between present; when the
    data-in pin is on the port, the host reads back exactly those bits. *)
Theorem output_shift_law sd ps bs b :
  misoBuffer (spi sd) = b ->
  drives sd ps bs -> length bs = 8%nat ->
  clock (spi sd) = false -> index (spi sd) = 7 ->
  exists rs sd' log,
    clockPairs ps sd = Some (rs, sd', log) /\
    rs = map (misoLevel sd) (bitsMSB b) /\
    (0 < maskMiso sd -> map (lineHigh sd) rs = bitsMSB b).
Proof.
  intros Hb Hd Hl Hc Hi.
  rewrite (exchange_run sd ps bs Hd Hl Hc Hi), Hb.
  eexists _, _, _. split; [reflexivity|]. split; [reflexivity|].
  intros Hm. rewrite map_map.
  rewrite (map_ext _ (fun x => x)) by (intros; apply lineHigh_misoLevel; exact Hm).
  apply map_id.
Qed.

Lemma output_shift_law_witness :
  misoBuffer (spi card2) = 255 /\
  drives card2 (bytePairs pm0 90) (bitsMSB 90) /\ length (bitsMSB 90) = 8%nat /\
  clock (spi card2) = false /\ index (spi card2) = 7 /\
  exists rs sd' log,
    clockPairs (bytePairs pm0 90) card2 = Some (rs, sd', log) /\
    rs = map (misoLevel card2) (bitsMSB 255) /\
    (0 < maskMiso card2 -> map (lineHigh card2) rs = bitsMSB 255).
Proof.
  assert (Hd : drives card2 (bytePairs pm0 90) (bitsMSB 90)) by host_facts.
  split; [reflexivity|]. split; [exact Hd|]. repeat (split; [reflexivity|]).
  exact (output_shift_law card2 (bytePairs pm0 90) (bitsMSB 90) 255
           eq_refl Hd eq_refl eq_refl eq_refl).
Defined.




(** C6 (queue default).  Dequeuing the next output byte never panics: a
    non-empty queue gives up its head, which becomes the output buffer; an
    empty queue stays empty and the output buffer becomes [0x00]. *)
Theorem dequeue_never_fails sd :
  match misoQueue (spi sd) with
  | b :: q =>
      handleMisoByte sd =
      Some (b, with_spi (with_misoQueue q (with_misoBuffer b (spi sd))) sd, [])
  | [] =>
      handleMisoByte sd =
      Some (0, with_spi (with_misoQueue [] (with_misoBuffer 0 (spi sd))) sd, [])
  end.
Proof.
  rewrite handleMisoByte_run. destruct (misoQueue (spi sd)); reflexivity.
Qed.

(** C7.  [Read] changes nothing and prints nothing, so any number of
    consecutive calls return the same value; and on every card reachable
    from [NewSdCard pm] that value has no bit set other than the data-in
    (Miso) bit of the pin map. *)
Theorem Read_is_pure_and_masked pm sd :
  reachable pm sd ->
  Read sd = Some (readByte (spi sd), sd, []) /\
  (forall n, readN n sd = Some (repeat (readByte (spi sd)) n, sd, [])) /\
  (forall k, k <> Miso pm -> Z.testbit (readByte (spi sd)) k = false).
Proof.
  intros Hr. split; [reflexivity|]. split; [intros n; apply readN_run|].
  intros k Hk.
  destruct (reachable_cardInv pm sd Hr) as (Hp & (_ & _ & Hm & _) & _ & [H0|H1]).
  - rewrite H0. apply Z.bits_0.
  - rewrite H1, Hm, Hp.
    destruct (Z.lt_ge_cases (Miso pm) 0) as [Hneg|Hpos];
      [rewrite shl8_out_of_range by lia; apply Z.bits_0|].
    destruct (Z.lt_ge_cases (Miso pm) 8) as [Hin|Hout];
      [|rewrite shl8_out_of_range by lia; apply Z.bits_0].
    rewrite shl8_in_range by lia.
    destruct (Z.lt_ge_cases k 0) as [Hkn|Hkp]; [apply Z.testbit_neg_r; exact Hkn|].
    rewrite Z.pow2_bits_eqb by lia. apply Z.eqb_neq. congruence.
Qed.

Lemma Read_is_pure_and_masked_witness :
  reachable pm0 card1 /\
  Read card1 = Some (4, card1, []) /\
  readN 3 card1 = Some ([4; 4; 4], card1, []) /\
  Z.testbit (readByte (spi card1)) 0 = false.
Proof.
  destruct (Read_is_pure_and_masked pm0 card1 reachable_card1) as (H1 & H2 & H3).
  split; [exact reachable_card1|]. split; [exact H1|]. split; [exact (H2 3%nat)|].
  apply H3. discriminate.
Defined.

(** C8.  [NewSdCard] returns a card with bit index 7; the bit index is in
    [0, 7] on every card reachable from it; and a falling edge processed
    while selected with bit index 0 (the end of a byte) returns with bit
    index 7. *)
Theorem bitIndex_range pm :
  (exists sd, NewSdCard pm = Some sd /\ index (spi sd) = 7) /\
  (forall sd, reachable pm sd -> 0 <= index (spi sd) <= 7) /\
  (forall sd d,
     selHigh sd d = false -> clock (spi sd) = true -> clkLevel sd d = false ->
     index (spi sd) = 0 ->
     exists sd' log, Write d sd = Some (tt, sd', log) /\ index (spi sd') = 7).
Proof.
  split; [|split].
  - rewrite NewSdCard_run. eexists. split; reflexivity.
  - intros sd Hr. apply (reachable_cardInv pm sd Hr).
  - intros sd d Hs Hc Hk Hi.
    rewrite (Write_falling_last sd d Hs Hc Hk Hi).
    eexists _, _. split; reflexivity.
Qed.

Lemma bitIndex_range_witness :
  index (spi card0) = 7 /\
  (reachable pm0 card1 /\ 0 <= index (spi card1) <= 7) /\
  (exists sd' log,
     Write 2 (with_spi (mkSpiState true 0 255 [] 4 64) card0) = Some (tt, sd', log) /\
     index (spi sd') = 7).
Proof.
  destruct (bitIndex_range pm0) as (_ & H2 & H3).
  split; [reflexivity|]. split.
  - split; [exact reachable_card1|]. exact (H2 card1 reachable_card1).
  - exact (H3 (with_spi (mkSpiState true 0 255 [] 4 64) card0) 2
              eq_refl eq_refl eq_refl eq_refl).
Defined.

(** C9.  [Write] never panics, and the value [Read] returns changes only
    when [Write] sees a rising clock edge while selected.  Right after such
    an edge it is the data-in mask when bit [index] of the output buffer is
    set and [0x00] when it is clear; the edge moves neither the bit index
    nor the output buffer.  A deselected write, a falling edge and a write
    without a clock transition leave the value as it was, and so does
    [Read]. *)
Theorem outputLine_changes_on_rising_edge_only sd d :
  exists sd' log,
    Write d sd = Some (tt, sd', log) /\
    (if negb (selHigh sd d) && negb (clock (spi sd)) && clkLevel sd d
     then index (spi sd') = index (spi sd) /\
          misoBuffer (spi sd') = misoBuffer (spi sd) /\
          (0 <= index (spi sd) <= 7 ->
           readByte (spi sd') =
           misoLevel sd' (Z.testbit (misoBuffer (spi sd')) (index (spi sd'))))
     else readByte (spi sd') = readByte (spi sd)) /\
    Read sd' = Some (readByte (spi sd'), sd', []).
Proof.
  destruct (Write_cases sd d)
    as [[Hs H]|[(Hs & Hk & H)|[(Hs & Hc & Hk & H)|[(Hs & Hc & Hk & _ & H)|(Hs & Hc & Hk & _ & H)]]]];
    rewrite H, Hs; try rewrite Hc; try rewrite Hk;
    eexists _, _; (split; [reflexivity|]); (split; [|reflexivity]).
  - reflexivity.
  - destruct (clock (spi sd)); reflexivity.
  - cbn. repeat split. intros Hi. rewrite (misoBit_testbit _ Hi). reflexivity.
  - reflexivity.
  - reflexivity.
Qed.

Lemma outputLine_changes_on_rising_edge_only_witness :
  (* a rising edge on bit 7 of 0x00 at power-on, then on bit 6 of 0xFF *)
  (exists sd' log, Write 1 card0 = Some (tt, sd', log) /\ readByte (spi sd') = 0) /\
  (exists sd' log,
     Write 1 (with_spi (mkSpiState false 6 255 [] 0 0) card0) = Some (tt, sd', log) /\
     readByte (spi sd') = 4).
Proof.
  split.
  - destruct (outputLine_changes_on_rising_edge_only card0 1)
      as (sd' & log & HW & Hline & _).
    exists sd', log. split; [exact HW|].
    cbn in Hline. destruct Hline as (_ & _ & Hr).
    vm_compute in HW. injection HW as <- _. apply Hr. lia.
  - destruct (outputLine_changes_on_rising_edge_only
                (with_spi (mkSpiState false 6 255 [] 0 0) card0) 1)
      as (sd' & log & HW & Hline & _).
    exists sd', log. split; [exact HW|].
    cbn in Hline. destruct Hline as (_ & _ & Hr).
    vm_compute in HW. injection HW as <- _. apply Hr. lia.
Defined.

(** C10.  On a card whose masks come from its pin map, two port bytes that
    agree on the chip-select, clock and data-out pins give the same result
    of [Write]: same successor card, same log.  The data-in pin and the
    unmapped pins of the written byte are not looked at. *)
Theorem Write_reads_three_pins sd d1 d2 :
  wfMasks sd ->
  Z.testbit d1 (Ss (pins sd)) = Z.testbit d2 (Ss (pins sd)) ->
  Z.testbit d1 (Sclk (pins sd)) = Z.testbit d2 (Sclk (pins sd)) ->
  Z.testbit d1 (Mosi (pins sd)) = Z.testbit d2 (Mosi (pins sd)) ->
  Write d1 sd = Write d2 sd.
Proof.
  intros (Hclk & Hmosi & _ & Hss) H1 H2 H3.
  apply mask_test_agree in H1, H2, H3.
  rewrite <- Hss in H1. rewrite <- Hclk in H2. rewrite <- Hmosi in H3.
  unfold Write. cbn [bind ret Monad_M]. unfold bindM, getSd.
  rewrite H1, H2, H3. reflexivity.
Qed.

Lemma Write_reads_three_pins_witness :
  wfMasks card0 /\
  Z.testbit 1 (Ss (pins card0)) = Z.testbit 245 (Ss (pins card0)) /\
  Z.testbit 1 (Sclk (pins card0)) = Z.testbit 245 (Sclk (pins card0)) /\
  Z.testbit 1 (Mosi (pins card0)) = Z.testbit 245 (Mosi (pins card0)) /\
  Write 1 card0 = Write 245 card0.
Proof.
  assert (Hw : wfMasks card0) by (repeat split).
  split; [exact Hw|]. repeat (split; [reflexivity|]).
  exact (Write_reads_three_pins card0 1 245 Hw eq_refl eq_refl eq_refl).
Defined.

(** * Part V. Further properties of the code *)

(** ** Helper lemmas *)

Lemma testbit_shl8 i k :
  Z.testbit (shl8 1 i) k = (i =? k) && (0 <=? k) && (k <? 8).
Proof.
  destruct (Z.lt_ge_cases k 0) as [Hk|Hk].
  - rewrite Z.testbit_neg_r by exact Hk.
    rewrite (proj2 (Z.leb_gt 0 k)) by exact Hk.
    rewrite andb_false_r. reflexivity.
  - rewrite (proj2 (Z.leb_le 0 k)) by exact Hk. rewrite andb_true_r.
    destruct (Z.lt_ge_cases i 0) as [Hneg|Hpos];
      [|destruct (Z.lt_ge_cases i 8) as [Hin|Hout]].
    + rewrite shl8_out_of_range, Z.bits_0 by lia.
      rewrite (proj2 (Z.eqb_neq i k)) by lia. reflexivity.
    + rewrite shl8_in_range, Z.pow2_bits_eqb by lia.
      destruct (Z.eqb_spec i k) as [->|Hne]; [|reflexivity].
      symmetry. apply Z.ltb_lt. lia.
    + rewrite shl8_out_of_range, Z.bits_0 by lia.
      destruct (Z.eqb_spec i k) as [->|Hne]; [|reflexivity].
      symmetry. apply Z.ltb_ge. lia.
Qed.

(** A non-negative number is a byte when it has no bit at position 8 or above. *)
Lemma is_byte_bits x :
  0 <= x -> (forall k, 8 <= k -> Z.testbit x k = false) -> is_byte x.
Proof.
  intros Hx Hbits. split; [exact Hx|].
  destruct (Z.eq_dec x 0) as [->|Hnz]; [lia|].
  change 256 with (2 ^ 8). apply Z.log2_lt_pow2; [lia|].
  destruct (Z.lt_ge_cases (Z.log2 x) 8) as [Hlt|Hge]; [exact Hlt|].
  assert (Hb : Z.testbit x (Z.log2 x) = true) by (apply Z.bit_log2; lia).
  rewrite Hbits in Hb by exact Hge. discriminate Hb.
Qed.

Lemma byte_bits_high x k : is_byte x -> 8 <= k -> Z.testbit x k = false.
Proof.
  intros Hx Hk. unfold is_byte in Hx.
  rewrite <- (Z.mod_small x (2 ^ 8)) by (change (2 ^ 8) with 256; lia).
  apply Z.mod_pow2_bits_high. lia.
Qed.

Lemma lor_byte a b : is_byte a -> is_byte b -> is_byte (Z.lor a b).
Proof.
  intros Ha Hb. apply is_byte_bits.
  - apply Z.lor_nonneg. unfold is_byte in *. lia.
  - intros k Hk. rewrite Z.lor_spec, !byte_bits_high by assumption. reflexivity.
Qed.

Lemma shl8_byte x n : is_byte (shl8 x n).
Proof. apply Z.mod_pos_bound. lia. Qed.

(** [Write] only ever replaces the SPI state of the card. *)
Lemma Write_spi_only sd d sd' log :
  Write d sd = Some (tt, sd', log) -> exists s', sd' = with_spi s' sd.
Proof.
  intros HW.
  destruct (Write_cases sd d)
    as [[_ H]|[(_ & _ & H)|[(_ & _ & _ & H)|[(_ & _ & _ & _ & H)|(_ & _ & _ & _ & H)]]]];
    rewrite H in HW; injection HW as <- _;
    try (eexists; reflexivity);
    exists (spi sd); destruct sd; reflexivity.
Qed.

(** After a selected [Write] the remembered clock is the level written. *)
Lemma Write_clock sd d sd' log :
  Write d sd = Some (tt, sd', log) -> selHigh sd d = false ->
  clock (spi sd') = clkLevel sd d.
Proof.
  intros HW Hsel.
  destruct (Write_cases sd d)
    as [[Hs H]|[(_ & Hk & H)|[(_ & _ & Hk & H)|[(_ & _ & Hk & _ & H)|(_ & _ & Hk & _ & H)]]]];
    rewrite H in HW; injection HW as <- _;
    [congruence| | | | ]; rewrite Hk; reflexivity.
Qed.

(** ** The pin map and construction *)

(** X1.  [PinMask] is a byte whose set bits are exactly the port positions
    (0 to 7) named by one of the four pins; a pin outside the port adds no
    bit. *)
Theorem PinMask_bits p :
  is_byte (PinMask p) /\
  forall k,
    Z.testbit (PinMask p) k =
    ((Sclk p =? k) || (Mosi p =? k) || (Miso p =? k) || (Ss p =? k))
    && (0 <=? k) && (k <? 8).
Proof.
  split.
  - unfold PinMask. repeat apply lor_byte; apply shl8_byte.
  - intros k. unfold PinMask. rewrite !Z.lor_spec, !testbit_shl8.
    destruct (Sclk p =? k), (Mosi p =? k), (Miso p =? k), (Ss p =? k),
      (0 <=? k), (k <? 8); reflexivity.
Qed.

(** X2.  [NewSdCard] succeeds for every pin map.  The card it returns
    holds the pin map, has no image, presents [0x00] on the port, and each
    of its four masks is the single bit of its pin when the pin is on the
    port (0 to 7) and [0] when it is not. *)
Theorem NewSdCard_masks pm :
  let mask p := if (0 <=? p) && (p <? 8) then 2 ^ p else 0 in
  exists sd,
    NewSdCard pm = Some sd /\
    pins sd = pm /\ data sd = [] /\ size sd = 0 /\
    readByte (spi sd) = 0 /\ clock (spi sd) = false /\
    maskSclk sd = mask (Sclk pm) /\ maskMosi sd = mask (Mosi pm) /\
    maskMiso sd = mask (Miso pm) /\ maskSs sd = mask (Ss pm).
Proof.
  intros mask.
  assert (Hm : forall p, shl8 1 p = mask p).
  { intros p. unfold mask.
    destruct (Z.leb_spec 0 p); destruct (Z.ltb_spec p 8); cbn [andb];
      [apply shl8_in_range | apply shl8_out_of_range
       | apply shl8_out_of_range | apply shl8_out_of_range]; lia. }
  rewrite NewSdCard_run. eexists. split; [reflexivity|].
  cbn [pins data size spi readByte clock maskSclk maskMosi maskMiso maskSs].
  rewrite !Hm. repeat split.
Qed.

(** ** What [Write] leaves alone *)

(** X3.  [Write] never touches the card image, its size, the pin map or
    the four masks: whatever the port byte, these are the same afterwards. *)
Theorem Write_keeps_image_and_pins sd d sd' log :
  Write d sd = Some (tt, sd', log) ->
  data sd' = data sd /\ size sd' = size sd /\ pins sd' = pins sd /\
  maskSclk sd' = maskSclk sd /\ maskMosi sd' = maskMosi sd /\
  maskMiso sd' = maskMiso sd /\ maskSs sd' = maskSs sd.
Proof.
  intros HW. destruct (Write_spi_only sd d sd' log HW) as (s' & ->).
  repeat split.
Qed.

Lemma Write_keeps_image_and_pins_witness :
  Write 1 card2 = Some (tt, with_spi (mkSpiState true 7 255 [] 4 0) card2, []) /\
  data (with_spi (mkSpiState true 7 255 [] 4 0) card2) = data card2 /\
  maskSs (with_spi (mkSpiState true 7 255 [] 4 0) card2) = maskSs card2.
Proof.
  assert (HW : Write 1 card2 =
               Some (tt, with_spi (mkSpiState true 7 255 [] 4 0) card2, []))
    by reflexivity.
  split; [exact HW|].
  destruct (Write_keeps_image_and_pins card2 1 _ _ HW)
    as (Hd & _ & _ & _ & _ & _ & Hs).
  split; [exact Hd|exact Hs].
Defined.

(** X4.  [Write] prints exactly when it completes a byte, that is on a
    falling edge seen while selected with bit index 0.  It then prints, in
    this order, the [0x40] notice if the completed input byte is [0x40],
    and one exchange line with the completed input byte and the byte just
    loaded into the output buffer (the one to be sent next).  Every other
    call prints nothing. *)
Theorem Write_logs_at_byte_boundary sd d sd' log :
  Write d sd = Some (tt, sd', log) ->
  if negb (selHigh sd d) && clock (spi sd) && negb (clkLevel sd d)
     && (index (spi sd) =? 0)
  then
    let v := shiftBit (spi sd) (mosiLevel sd d) in
    log = (if v =? 64 then [GotCmd40] else [])
          ++ [Exchange v (misoBuffer (spi sd'))]
  else log = [].
Proof.
  intros HW.
  destruct (Write_cases sd d)
    as [[Hs H]|[(Hs & Hk & H)|[(Hs & Hc & Hk & H)|[(Hs & Hc & Hk & Hi & H)|(Hs & Hc & Hk & Hi & H)]]]];
    rewrite H in HW; injection HW as <- <-; rewrite Hs; cbn [negb andb].
  - reflexivity.
  - rewrite Hk. destruct (clock (spi sd)); reflexivity.
  - rewrite Hc. reflexivity.
  - rewrite Hc, Hk. cbn [negb andb].
    rewrite (proj2 (Z.eqb_neq _ _) Hi). reflexivity.
  - rewrite Hc, Hk, Hi. reflexivity.
Qed.

Lemma Write_logs_at_byte_boundary_witness :
  (* the last falling edge of the byte 0x40, with 0xFF next in the queue *)
  Write 0 (with_spi (mkSpiState true 0 0 [255] 0 64) card0) =
  Some (tt, with_spi (mkSpiState false 7 255 [170; 171; 172; 173] 0 0) card0,
        [GotCmd40; Exchange 64 255]) /\
  [GotCmd40; Exchange 64 255] = [GotCmd40] ++ [Exchange 64 255].
Proof.
  assert (HW : Write 0 (with_spi (mkSpiState true 0 0 [255] 0 64) card0) =
               Some (tt, with_spi (mkSpiState false 7 255 [170; 171; 172; 173] 0 0) card0,
                     [GotCmd40; Exchange 64 255])) by reflexivity.
  split; [exact HW|].
  exact (Write_logs_at_byte_boundary _ 0 _ _ HW).
Defined.

(** X5.  Writing the same port byte twice in a row is the same as writing
    it once: the second call sees no clock transition (or a deselected
    card), changes nothing and prints nothing. *)
Theorem Write_same_byte_again sd d sd' log :
  Write d sd = Some (tt, sd', log) -> Write d sd' = Some (tt, sd', []).
Proof.
  intros HW.
  destruct (Write_spi_only sd d sd' log HW) as (s' & Hsd').
  destruct (selHigh sd d) eqn:Hs.
  - rewrite (Write_deselected sd d Hs) in HW. injection HW as <- _.
    apply Write_deselected. exact Hs.
  - pose proof (Write_clock sd d sd' log HW Hs) as Hc.
    apply Write_steady; subst sd'; [exact Hs|].
    symmetry. exact Hc.
Qed.

Lemma Write_same_byte_again_witness :
  Write 1 card2 = Some (tt, with_spi (mkSpiState true 7 255 [] 4 0) card2, []) /\
  Write 1 (with_spi (mkSpiState true 7 255 [] 4 0) card2) =
  Some (tt, with_spi (mkSpiState true 7 255 [] 4 0) card2, []).
Proof.
  assert (HW : Write 1 card2 =
               Some (tt, with_spi (mkSpiState true 7 255 [] 4 0) card2, []))
    by reflexivity.
  split; [exact HW|].
  exact (Write_same_byte_again card2 1 _ _ HW).
Defined.

(** ** The card image *)

Lemma Write_with_image x n sd d :
  Write d (with_image x n sd) =
  match Write d sd with
  | Some (u, sd', log) => Some (u, with_image x n sd', log)
  | None => None
  end.
Proof.
  destruct (Write_cases sd d)
    as [[Hs H]|[(Hs & Hk & H)|[(Hs & Hc & Hk & H)|[(Hs & Hc & Hk & Hi & H)|(Hs & Hc & Hk & Hi & H)]]]];
    rewrite H.
  - apply (Write_deselected (with_image x n sd) d Hs).
  - apply (Write_steady (with_image x n sd) d Hs Hk).
  - apply (Write_rising (with_image x n sd) d Hs Hc Hk).
  - apply (Write_falling_mid (with_image x n sd) d Hs Hc Hk Hi).
  - apply (Write_falling_last (with_image x n sd) d Hs Hc Hk Hi).
Qed.

(** X6.  Loading a card image and writing a port byte commute: the image
    plays no part in the protocol, and [Write] does not disturb the image.
    Either order gives the same card, the same log and the same error
    result of [LoadFile] (whether the file could be read or not). *)
Theorem LoadFile_Write_commute c d sd :
  (e <- LoadFile c ;; Write d ;; ret e) sd = (Write d ;; LoadFile c) sd.
Proof.
  cbn [bind ret Monad_M]. unfold bindM.
  destruct (Write_total sd d) as (sd' & log & HW).
  destruct c as [x|]; cbn [LoadFile ret Monad_M]; unfold retM.
  - rewrite Write_with_image, HW. rewrite !app_nil_r. reflexivity.
  - rewrite HW. rewrite !app_nil_r. reflexivity.
Qed.

(** X7.  On every card reachable from [NewSdCard], [size] is the length
    of the image [data]: both are zero until a file is loaded, and
    [LoadFile] sets them together. *)
Theorem size_is_image_length pm sd :
  reachable pm sd -> size sd = Z.of_nat (length (data sd)).
Proof.
  induction 1 as [sd H|sd d sd' log _ IH H|sd r sd' log _ IH H
                  |sd c e sd' log _ IH H|sd sd' log _ IH H].
  - rewrite NewSdCard_run in H. injection H as <-. reflexivity.
  - destruct (Write_spi_only sd d sd' log H) as (s' & ->). exact IH.
  - injection H as _ <- _. exact IH.
  - destruct c as [x|]; injection H as _ <- _; [reflexivity|exact IH].
  - injection H as <- _. exact IH.
Qed.

Lemma size_is_image_length_witness :
  reachable pm0 (with_image [1; 2; 3] 3 card1) /\
  size (with_image [1; 2; 3] 3 card1) =
  Z.of_nat (length (data (with_image [1; 2; 3] 3 card1))).
Proof.
  assert (Hr : reachable pm0 (with_image [1; 2; 3] 3 card1)).
  { apply (reach_LoadFile pm0 card1 (Some [1; 2; 3]) false _ []).
    - exact reachable_card1.
    - reflexivity. }
  split; [exact Hr|].
  exact (size_is_image_length pm0 _ Hr).
Defined.

(** ** Byte ranges *)

Lemma response_bytes v : Forall is_byte (response v).
Proof.
  unfold response. destruct (v =? 64); repeat constructor; unfold is_byte; lia.
Qed.

Lemma Write_bytesInv pm sd d sd' log :
  cardInv pm sd -> bytesInv sd -> Write d sd = Some (tt, sd', log) -> bytesInv sd'.
Proof.
  intros (_ & (_ & _ & Hmiso & _) & Hi & _) Hinv HW.
  pose proof Hinv as (Hb & Hq & Hr & Hm & Hbits).
  assert (H0 : is_byte 0) by (unfold is_byte; lia).
  destruct (Write_cases sd d)
    as [[_ H]|[(_ & _ & H)|[(_ & _ & _ & H)|[(_ & _ & _ & Hn & H)|(_ & _ & _ & Hz & H)]]]];
    rewrite H in HW; injection HW as <- _; clear H;
    try exact Hinv;
    unfold bytesInv;
    cbn [spi with_spi with_readByte with_clock with_index with_mosiBuffer
         misoBuffer misoQueue readByte mosiBuffer index];
    (split; [|split; [|split; [|split]]]); try assumption.
  - unfold misoLevel. destruct (misoBit (spi sd)); [|exact H0].
    rewrite Hmiso. apply shl8_byte.
  - unfold shiftBit. destruct (mosiLevel sd d); [|exact Hm].
    apply lor_byte; [exact Hm|apply shl8_byte].
  - intros k Hk. unfold wrap8 in Hk. rewrite Z.mod_small in Hk by lia.
    unfold shiftBit. destruct (mosiLevel sd d); [|apply Hbits; lia].
    rewrite Z.lor_spec, testbit_shl8, Hbits by lia.
    rewrite (proj2 (Z.eqb_neq _ _)) by lia. reflexivity.
  - destruct (misoQueue (spi sd)) as [|x q]; [|inversion Hq; assumption].
    cbn [app]. destruct (response_bytes (shiftBit (spi sd) (mosiLevel sd d)));
      [exact H0|assumption].
  - assert (Hq' : Forall is_byte
                    (misoQueue (spi sd) ++ response (shiftBit (spi sd) (mosiLevel sd d))))
      by (apply Forall_app; split; [exact Hq|apply response_bytes]).
    destruct Hq'; [apply Forall_nil|assumption].
  - intros k _. apply Z.bits_0.
Qed.

(** X8.  On every card reachable from [NewSdCard], the output buffer, the
    queued bytes, the latched port value and the input buffer are all in
    [0, 255], and the input buffer has no bit set at or below the current
    bit index: each falling edge writes its bit into a clear position, so
    no bit of an earlier byte can leak into the next one. *)
Theorem reachable_bytes pm sd :
  reachable pm sd ->
  is_byte (misoBuffer (spi sd)) /\ Forall is_byte (misoQueue (spi sd)) /\
  is_byte (readByte (spi sd)) /\ is_byte (mosiBuffer (spi sd)) /\
  forall k, 0 <= k <= index (spi sd) -> Z.testbit (mosiBuffer (spi sd)) k = false.
Proof.
  change (reachable pm sd -> bytesInv sd).
  induction 1 as [sd H|sd d sd' log Hr IH H|sd r sd' log _ IH H
                  |sd c e sd' log _ IH H|sd sd' log _ IH H].
  - rewrite NewSdCard_run in H. injection H as <-.
    unfold bytesInv, is_byte.
    cbn [spi misoBuffer misoQueue readByte mosiBuffer index].
    repeat split; try lia.
    + repeat constructor; lia.
    + intros k _. apply Z.bits_0.
  - exact (Write_bytesInv pm sd d sd' log (reachable_cardInv pm sd Hr) IH H).
  - injection H as _ <- _. exact IH.
  - destruct c as [x|]; injection H as _ <- _; [destruct sd|]; exact IH.
  - injection H as <- _. exact IH.
Qed.

Lemma reachable_bytes_witness :
  reachable pm0 card1 /\
  is_byte (misoBuffer (spi card1)) /\ is_byte (readByte (spi card1)) /\
  Z.testbit (mosiBuffer (spi card1)) 7 = false.
Proof.
  destruct (reachable_bytes pm0 card1 reachable_card1) as (H1 & _ & H3 & _ & H5).
  split; [exact reachable_card1|]. split; [exact H1|]. split; [exact H3|].
  apply H5. cbn. lia.
Defined.

(** ** The queue over whole bytes *)

Lemma firstn_pad (l : list byte) n : forall m,
  (n <= m)%nat -> firstn n (l ++ repeat 0 m) = firstn n (l ++ repeat 0 n).
Proof.
  revert l. induction n as [|n IH]; intros l m Hm; [reflexivity|].
  destruct l as [|x l].
  - destruct m as [|m]; [lia|]. cbn [app repeat firstn]. f_equal.
    apply (IH [] m). lia.
  - cbn [app firstn]. f_equal.
    rewrite (IH l m) by lia. symmetry. apply (IH l (S n)). lia.
Qed.

Lemma cardReplies_idle vs : forall b q,
  Forall (fun v => v <> 64) vs ->
  cardReplies b q vs =
  firstn (length vs) (map wrap8 (b :: q) ++ repeat 0 (length vs)).
Proof.
  induction vs as [|v vs IH]; intros b q Hvs; [reflexivity|].
  inversion Hvs as [|? ? Hv Hrest]; subst.
  cbn [cardReplies length map app firstn]. f_equal.
  unfold response. rewrite (proj2 (Z.eqb_neq v 64) Hv), app_nil_r.
  rewrite (IH _ _ Hrest). destruct q as [|x q]; cbn [hd tl map app].
  - reflexivity.
  - symmetry. apply (firstn_pad (wrap8 x :: map wrap8 q)). lia.
Qed.

(** X9.  While the host sends no [0x40], the card answers with the byte
    in its output buffer, then the queued bytes in the order they were
    queued, then [0x00] for ever: an empty queue is not an error, it reads
    as zero bytes. *)
Theorem idle_card_drains_then_zero pss vs sd :
  Forall2 (sendsByte sd) pss vs -> Forall (fun v => v <> 64) vs ->
  atBoundary sd -> 0 < maskMiso sd ->
  exists sd' log,
    exchanges pss sd =
    Some (firstn (length vs)
            (map wrap8 (misoBuffer (spi sd) :: misoQueue (spi sd))
             ++ repeat 0 (length vs)),
          sd', log).
Proof.
  intros Hs Hvs Hb Hm.
  destruct (exchanges_run pss vs sd Hs Hb Hm) as (sd' & log & Hrun).
  exists sd', log. rewrite Hrun, (cardReplies_idle vs _ _ Hvs). reflexivity.
Qed.

Lemma idle_card_drains_then_zero_witness :
  Forall2 (sendsByte card0) (map (bytePairs pm0) [255; 0; 1; 255; 7; 9])
          [255; 0; 1; 255; 7; 9] /\
  Forall (fun v => v <> 64) [255; 0; 1; 255; 7; 9] /\
  atBoundary card0 /\ 0 < maskMiso card0 /\
  exists sd' log,
    exchanges (map (bytePairs pm0) [255; 0; 1; 255; 7; 9]) card0 =
    Some ([0; 0; 0; 255; 0; 0], sd', log).
Proof.
  assert (Hs : Forall2 (sendsByte card0) (map (bytePairs pm0) [255; 0; 1; 255; 7; 9])
                 [255; 0; 1; 255; 7; 9]) by host_facts.
  assert (Hv : Forall (fun v => v <> 64) [255; 0; 1; 255; 7; 9])
    by (repeat constructor; discriminate).
  assert (Hb : atBoundary card0) by (repeat split).
  assert (Hm : 0 < maskMiso card0) by reflexivity.
  split; [exact Hs|]. split; [exact Hv|]. split; [exact Hb|]. split; [exact Hm|].
  exact (idle_card_drains_then_zero _ _ card0 Hs Hv Hb Hm).
Defined.

(** ** Chip select in the middle of a byte *)

Lemma clockPairs_spi_only ps : forall sd r sd' log,
  clockPairs ps sd = Some (r, sd', log) -> exists s', sd' = with_spi s' sd.
Proof.
  induction ps as [|p ps IH]; intros sd r sd' log H.
  - injection H as _ <- _. exists (spi sd). destruct sd; reflexivity.
  - cbn [clockPairs bind ret Monad_M] in H. unfold bindM, clockPair in H.
    cbn [bind ret Monad_M] in H. unfold bindM in H.
    destruct (Write (fst p) sd) as [[[[] sd1] l1]|] eqn:H1; [|discriminate].
    rewrite Read_run in H.
    destruct (Write (snd p) sd1) as [[[[] sd2] l2]|] eqn:H2; [|discriminate].
    unfold retM in H.
    destruct (clockPairs ps sd2) as [[[rs sd3] l3]|] eqn:H3; [|discriminate].
    injection H as _ <- _.
    destruct (Write_spi_only _ _ _ _ H1) as (s1 & ->).
    destruct (Write_spi_only _ _ _ _ H2) as (s2 & ->).
    destruct (IH _ _ _ _ H3) as (s3 & ->).
    exists s3. reflexivity.
Qed.

(** X10.  Deselecting the card in the middle of a byte does not reset the
    bit position: clocking some bits, writing any port bytes with chip
    select high, then clocking more bits gives the same samples, the same
    card and the same log as clocking all the bits without the pause. *)
Theorem deselect_keeps_bit_position ps1 ds ps2 sd :
  Forall (fun d => selHigh sd d = true) ds ->
  (r1 <- clockPairs ps1 ;; writes ds ;; r2 <- clockPairs ps2 ;; ret (r1 ++ r2)) sd
  = clockPairs (ps1 ++ ps2) sd.
Proof.
  intros Hds. rewrite clockPairs_app.
  cbn [bind ret Monad_M]. unfold bindM.
  destruct (clockPairs ps1 sd) as [[[r1 sd1] l1]|] eqn:H1; [|reflexivity].
  destruct (clockPairs_spi_only _ _ _ _ _ H1) as (s1 & ->).
  rewrite (writes_deselected (with_spi s1 sd) ds Hds).
  destruct (clockPairs ps2 (with_spi s1 sd)) as [[[r2 sd2] l2]|]; [|reflexivity].
  unfold retM. rewrite !app_nil_r. reflexivity.
Qed.

Lemma deselect_keeps_bit_position_witness :
  Forall (fun d => selHigh card2 d = true) [8; 9; 8; 11] /\
  (r1 <- clockPairs (firstn 3 (bytePairs pm0 64)) ;; writes [8; 9; 8; 11] ;;
   r2 <- clockPairs (skipn 3 (bytePairs pm0 64)) ;; ret (r1 ++ r2)) card2
  = clockPairs (bytePairs pm0 64) card2.
Proof.
  assert (Hd : Forall (fun d => selHigh card2 d = true) [8; 9; 8; 11])
    by (repeat constructor).
  split; [exact Hd|].
  exact (deselect_keeps_bit_position (firstn 3 (bytePairs pm0 64)) [8; 9; 8; 11]
           (skipn 3 (bytePairs pm0 64)) card2 Hd).
Defined.

(** ** A clock pin that is not on the port *)

Lemma reachable_clock_low pm sd :
  shl8 1 (Sclk pm) = 0 -> reachable pm sd ->
  clock (spi sd) = false /\ maskSclk sd = 0.
Proof.
  intros Hmask.
  induction 1 as [sd H|sd d sd' log Hr IH H|sd r sd' log _ IH H
                  |sd c e sd' log _ IH H|sd sd' log _ IH H].
  - rewrite NewSdCard_run in H. injection H as <-. split; [reflexivity|exact Hmask].
  - destruct IH as [Hc Hm].
    destruct (Write_spi_only sd d sd' log H) as (s' & Hsd').
    split; [|subst sd'; exact Hm].
    destruct (selHigh sd d) eqn:Hs.
    + rewrite (Write_deselected sd d Hs) in H. injection H as <- _. exact Hc.
    + rewrite (Write_clock sd d sd' log H Hs).
      unfold clkLevel. rewrite Hm, Z.land_0_r. reflexivity.
  - injection H as _ <- _. exact IH.
  - destruct c as [x|]; injection H as _ <- _; [destruct sd|]; exact IH.
  - injection H as <- _. exact IH.
Qed.

(** X11.  A card built with a clock pin outside the port (not in 0 to 7)
    is inert: its clock mask is [0], so it never sees an edge, and every
    [Write] on every card reachable from [NewSdCard] changes nothing and
    prints nothing. *)
Theorem clock_pin_off_port_is_inert pm sd d :
  ~ (0 <= Sclk pm < 8) -> reachable pm sd -> Write d sd = Some (tt, sd, []).
Proof.
  intros Hpin Hr.
  destruct (reachable_clock_low pm sd) as [Hc Hm];
    [apply shl8_out_of_range; lia|exact Hr|].
  destruct (selHigh sd d) eqn:Hs; [apply Write_deselected; exact Hs|].
  apply Write_steady; [exact Hs|].
  unfold clkLevel. rewrite Hm, Z.land_0_r, Hc. reflexivity.
Qed.

Lemma clock_pin_off_port_is_inert_witness :
  ~ (0 <= Sclk pm8 < 8) /\ reachable pm8 card8 /\
  Write 7 card8 = Some (tt, card8, []).
Proof.
  assert (Hp : ~ (0 <= Sclk pm8 < 8)) by (cbn; lia).
  assert (Hr : reachable pm8 card8) by (apply reach_new; reflexivity).
  split; [exact Hp|]. split; [exact Hr|].
  exact (clock_pin_off_port_is_inert pm8 card8 7 Hp Hr).
Defined.

(** ** Addressable memory *)

Lemma update_length (l : list byte) i v :
  (i < length l)%nat -> length (firstn i l ++ v :: skipn (S i) l) = length l.
Proof.
  intros Hi. rewrite length_app. cbn [length].
  rewrite length_firstn, length_skipn. lia.
Qed.

Lemma update_nth_same (l : list byte) i v :
  (i < length l)%nat -> nth_error (firstn i l ++ v :: skipn (S i) l) i = Some v.
Proof.
  intros Hi. rewrite nth_error_app2 by (rewrite length_firstn; lia).
  rewrite length_firstn, Nat.min_l by lia. rewrite Nat.sub_diag. reflexivity.
Qed.

Lemma update_nth_other (l : list byte) i j v :
  (i < length l)%nat -> i <> j ->
  nth_error (firstn i l ++ v :: skipn (S i) l) j = nth_error l j.
Proof.
  intros Hi Hij. destruct (Nat.lt_ge_cases j i) as [Hlt|Hge].
  - rewrite nth_error_app1 by (rewrite length_firstn; lia).
    rewrite nth_error_firstn, (proj2 (Nat.ltb_lt j i) Hlt). reflexivity.
  - rewrite nth_error_app2 by (rewrite length_firstn; lia).
    rewrite length_firstn, Nat.min_l by lia.
    destruct (j - i)%nat as [|n] eqn:Hn; [lia|]. cbn [nth_error].
    rewrite nth_error_skipn. f_equal. lia.
Qed.

Lemma wrap16_inj a a' o :
  Mem.is_uint16 a -> Mem.is_uint16 a' ->
  Mem.wrap16 (a - o) = Mem.wrap16 (a' - o) -> a = a'.
Proof.
  unfold Mem.is_uint16, Mem.wrap16. intros Ha Ha' H.
  Z.div_mod_to_equations. lia.
Qed.

(** X12.  RAM keeps what is written: after [Write(a, v)] at an address
    below [0x8000], [Read(a)] returns [v], every other address reads as it
    did before, and the array still has its [0x8000] cells. *)
Theorem Ram_write_then_read (mem : Mem.Ram) a v :
  Mem.ramOk mem -> 0 <= a < 32768 ->
  exists mem' : Mem.Ram,
    Mem.Write mem a v = Some mem' /\ Mem.ramOk mem' /\
    Mem.Read mem' a = Some v /\
    forall a', 0 <= a' -> a' <> a -> Mem.Read mem' a' = Mem.Read mem a'.
Proof.
  intros Hok Ha. unfold Mem.ramOk in Hok.
  assert (Hi : (Z.to_nat a < length mem)%nat)
    by (rewrite Hok; unfold Mem.ramLen; lia).
  cbn [Mem.Write Mem.Read Mem.Memory_Ram]. unfold Mem.Ram_Write, Mem.Ram_Read.
  rewrite (proj2 (Nat.ltb_lt _ _) Hi). eexists. split; [reflexivity|].
  split; [|split].
  - unfold Mem.ramOk. rewrite update_length; assumption.
  - apply update_nth_same. exact Hi.
  - intros a' Ha' Hne. apply update_nth_other; [exact Hi|lia].
Qed.

Lemma Ram_write_then_read_witness :
  Mem.ramOk Mem.zeroRam /\ 0 <= 513 < 32768 /\
  exists mem' : Mem.Ram,
    Mem.Write Mem.zeroRam 513 42 = Some mem' /\ Mem.ramOk mem' /\
    Mem.Read mem' 513 = Some 42 /\
    forall a', 0 <= a' -> a' <> 513 -> Mem.Read mem' a' = Mem.Read Mem.zeroRam a'.
Proof.
  assert (Hok : Mem.ramOk Mem.zeroRam) by apply repeat_length.
  assert (Ha : 0 <= 513 < 32768) by lia.
  split; [exact Hok|]. split; [exact Ha|].
  exact (Ram_write_then_read Mem.zeroRam 513 42 Hok Ha).
Defined.

(** X13.  RAM covers only the lower half of the 16-bit address space:
    [Read] and [Write] panic exactly at the addresses [0x8000] and above,
    the bound that [Size] reports. *)
Theorem Ram_address_bounds (mem : Mem.Ram) a v :
  Mem.ramOk mem -> 0 <= a ->
  (Mem.Read mem a = None <-> Mem.Size mem <= a) /\
  (Mem.Write mem a v = None <-> Mem.Size mem <= a).
Proof.
  intros Hok Ha. unfold Mem.ramOk, Mem.ramLen in Hok.
  cbn [Mem.Write Mem.Read Mem.Size Mem.Memory_Ram].
  unfold Mem.Ram_Write, Mem.Ram_Read, Mem.Ram_Size. split.
  - rewrite nth_error_None, Hok. lia.
  - destruct (Nat.ltb_spec (Z.to_nat a) (length mem)) as [Hlt|Hge];
      rewrite Hok in *; split; intros H; try discriminate; try reflexivity; lia.
Qed.

Lemma Ram_address_bounds_witness :
  Mem.ramOk Mem.zeroRam /\ 0 <= 32768 /\
  Mem.Read Mem.zeroRam 32768 = None /\ Mem.Write Mem.zeroRam 32768 1 = None.
Proof.
  assert (Hok : Mem.ramOk Mem.zeroRam) by apply repeat_length.
  assert (Ha : 0 <= 32768) by lia.
  destruct (Ram_address_bounds Mem.zeroRam 32768 1 Hok Ha) as [[_ Hr] [_ Hw]].
  split; [exact Hok|]. split; [exact Ha|].
  split; [apply Hr|apply Hw]; apply Z.le_refl.
Defined.

(** X14.  A ROM made from a file reports the file's length as its size,
    reads back the file's bytes, panics on a read at or beyond its size,
    and panics on every write; when the file cannot be read no ROM is
    made. *)
Theorem Rom_from_file path d :
  Mem.RomFromFile path None = None /\
  exists rom,
    Mem.RomFromFile path (Some d) = Some rom /\
    Mem.Size rom = Z.of_nat (length d) /\
    (forall a, 0 <= a -> Mem.Read rom a = nth_error d (Z.to_nat a)) /\
    (forall a, 0 <= a -> (Mem.Read rom a = None <-> Mem.Size rom <= a)) /\
    (forall a v, Mem.Write rom a v = None).
Proof.
  split; [reflexivity|]. eexists. split; [reflexivity|].
  cbn [Mem.Size Mem.Read Mem.Write Mem.Memory_Rom].
  unfold Mem.Rom_Size, Mem.Rom_Read, Mem.Rom_Write. cbn [Mem.size Mem.data].
  repeat split; intros.
  - apply nth_error_None in H0. lia.
  - apply nth_error_None. lia.
Qed.

Lemma Rom_from_file_witness :
  exists rom,
    Mem.RomFromFile String.EmptyString (Some [10; 20; 30]) = Some rom /\
    Mem.Size rom = 3 /\ Mem.Read rom 1 = Some 20 /\ Mem.Read rom 3 = None /\
    Mem.Write rom 0 0 = None.
Proof.
  destruct (proj2 (Rom_from_file String.EmptyString [10; 20; 30]))
    as (rom & H1 & H2 & H3 & H4 & H5).
  exists rom. split; [exact H1|]. split; [exact H2|].
  split; [exact (H3 1 (Z.le_0_1))|]. split; [|exact (H5 0 0)].
  apply H4; [lia|]. rewrite H2. apply Z.le_refl.
Defined.

(** X15.  Mounting a mounted memory adds the offsets modulo [2^16]: an
    [OffsetMemory] at [o1] around an [OffsetMemory] at [o2] reads and
    writes the innermost memory exactly like a single [OffsetMemory] at
    [o1 + o2] (wrapped to 16 bits). *)
Theorem OffsetMemory_nested {T} `{Mem.Memory T} (m : T) o1 o2 a v :
  Mem.Read (Mem.mkOffsetMemory o1 (Mem.mkOffsetMemory o2 m)) a =
  Mem.Read (Mem.mkOffsetMemory (Mem.wrap16 (o1 + o2)) m) a /\
  option_map (fun om => Mem.Inner (Mem.Inner om))
    (Mem.Write (Mem.mkOffsetMemory o1 (Mem.mkOffsetMemory o2 m)) a v) =
  option_map Mem.Inner
    (Mem.Write (Mem.mkOffsetMemory (Mem.wrap16 (o1 + o2)) m) a v).
Proof.
  assert (E : Mem.wrap16 (Mem.wrap16 (a - o1) - o2) =
              Mem.wrap16 (a - Mem.wrap16 (o1 + o2))).
  { unfold Mem.wrap16. rewrite Zminus_mod_idemp_l, Zminus_mod_idemp_r.
    f_equal. lia. }
  cbn [Mem.Read Mem.Write Mem.Memory_OffsetMemory].
  unfold Mem.OffsetMemory_Read, Mem.OffsetMemory_Write.
  cbn [Mem.Read Mem.Write Mem.Memory_OffsetMemory Mem.Inner Mem.Offset].
  unfold Mem.OffsetMemory_Read, Mem.OffsetMemory_Write.
  cbn [Mem.Inner Mem.Offset]. rewrite E. split; [reflexivity|].
  destruct (Mem.Write m (Mem.wrap16 (a - Mem.wrap16 (o1 + o2))) v); reflexivity.
Qed.

(** X16.  RAM mounted at any base keeps what is written: when the
    translated address [(a - Offset) mod 2^16] falls inside the RAM, a
    write at [a] succeeds, a read at [a] then returns the value written,
    and every other 16-bit address reads as before (the translation never
    maps two addresses to one cell). *)
Theorem OffsetMemory_Ram_write_then_read o (mem : Mem.Ram) a v :
  Mem.ramOk mem -> Mem.is_uint16 a -> Mem.wrap16 (a - o) < 32768 ->
  exists om' : Mem.OffsetMemory Mem.Ram,
    Mem.Write (Mem.mkOffsetMemory o mem) a v = Some om' /\
    Mem.Offset om' = o /\ Mem.ramOk (Mem.Inner om') /\
    Mem.Read om' a = Some v /\
    forall a', Mem.is_uint16 a' -> a' <> a ->
      Mem.Read om' a' = Mem.Read (Mem.mkOffsetMemory o mem) a'.
Proof.
  intros Hok Ha Hin. unfold Mem.ramOk in Hok.
  assert (Hpos : 0 <= Mem.wrap16 (a - o)) by (apply Z.mod_pos_bound; lia).
  assert (Hi : (Z.to_nat (Mem.wrap16 (a - o)) < length mem)%nat)
    by (rewrite Hok; unfold Mem.ramLen; lia).
  cbn [Mem.Read Mem.Write Mem.Memory_OffsetMemory].
  unfold Mem.OffsetMemory_Read, Mem.OffsetMemory_Write.
  cbn [Mem.Read Mem.Write Mem.Memory_Ram Mem.Inner Mem.Offset].
  unfold Mem.Ram_Write, Mem.Ram_Read.
  rewrite (proj2 (Nat.ltb_lt _ _) Hi). eexists. split; [reflexivity|].
  cbn [Mem.Inner Mem.Offset]. split; [reflexivity|]. split; [|split].
  - unfold Mem.ramOk. rewrite update_length; assumption.
  - apply update_nth_same. exact Hi.
  - intros a' Ha' Hne. apply update_nth_other; [exact Hi|].
    intros E. apply Hne. apply (wrap16_inj a' a o Ha' Ha).
    assert (0 <= Mem.wrap16 (a' - o)) by (apply Z.mod_pos_bound; lia).
    lia.
Qed.

Lemma OffsetMemory_Ram_write_then_read_witness :
  Mem.ramOk Mem.zeroRam /\ Mem.is_uint16 16 /\ Mem.wrap16 (16 - 49152) < 32768 /\
  exists om' : Mem.OffsetMemory Mem.Ram,
    Mem.Write (Mem.mkOffsetMemory 49152 Mem.zeroRam) 16 7 = Some om' /\
    Mem.Offset om' = 49152 /\ Mem.ramOk (Mem.Inner om') /\
    Mem.Read om' 16 = Some 7 /\
    forall a', Mem.is_uint16 a' -> a' <> 16 ->
      Mem.Read om' a' = Mem.Read (Mem.mkOffsetMemory 49152 Mem.zeroRam) a'.
Proof.
  assert (Hok : Mem.ramOk Mem.zeroRam) by apply repeat_length.
  assert (Ha : Mem.is_uint16 16) by (unfold Mem.is_uint16; lia).
  assert (Hin : Mem.wrap16 (16 - 49152) < 32768) by reflexivity.
  split; [exact Hok|]. split; [exact Ha|]. split; [exact Hin|].
  exact (OffsetMemory_Ram_write_then_read 49152 Mem.zeroRam 16 7 Hok Ha Hin).
Defined.

(** X17.  [OffsetMemory] does not reject an address below its base: the
    subtraction wraps.  An address at or above [Offset] reaches the inner
    memory at [a - Offset]; an address below it reaches the inner memory
    at [a - Offset + 0x10000]. *)
Theorem OffsetMemory_address {T} `{Mem.Memory T} (m : T) o a v :
  Mem.is_uint16 o -> Mem.is_uint16 a ->
  let a' := if o <=? a then a - o else a - o + 65536 in
  Mem.Read (Mem.mkOffsetMemory o m) a = Mem.Read m a' /\
  option_map Mem.Inner (Mem.Write (Mem.mkOffsetMemory o m) a v) = Mem.Write m a' v.
Proof.
  intros Ho Ha a'. unfold Mem.is_uint16 in Ho, Ha.
  assert (E : Mem.wrap16 (a - o) = a').
  { unfold Mem.wrap16. subst a'. destruct (Z.leb_spec o a).
    - apply Z.mod_small. lia.
    - rewrite <- (Z.mod_add _ 1) by lia. apply Z.mod_small. lia. }
  cbn [Mem.Read Mem.Write Mem.Memory_OffsetMemory].
  unfold Mem.OffsetMemory_Read, Mem.OffsetMemory_Write.
  cbn [Mem.Inner Mem.Offset]. rewrite E. split; [reflexivity|].
  destruct (Mem.Write m a' v); reflexivity.
Qed.

Lemma OffsetMemory_address_witness :
  Mem.is_uint16 49152 /\ Mem.is_uint16 0 /\
  Mem.Read (Mem.mkOffsetMemory 49152 (Mem.mkRom String.EmptyString 3 [1; 2; 3])) 49153
  = Some 2 /\
  Mem.Read (Mem.mkOffsetMemory 49152 Mem.zeroRam) 0 = Mem.Read Mem.zeroRam 16384.
Proof.
  assert (Ho : Mem.is_uint16 49152) by (unfold Mem.is_uint16; lia).
  assert (Ha : Mem.is_uint16 0) by (unfold Mem.is_uint16; lia).
  assert (Hb : Mem.is_uint16 49153) by (unfold Mem.is_uint16; lia).
  split; [exact Ho|]. split; [exact Ha|]. split.
  - exact (proj1 (OffsetMemory_address (Mem.mkRom String.EmptyString 3 [1; 2; 3])
                    49152 49153 0 Ho Hb)).
  - exact (proj1 (OffsetMemory_address Mem.zeroRam 49152 0 0 Ho Ha)).
Defined.
